(** * aws-rum-web: anonymous credential chain and DOM event plugin

    A shallow embedding of
    - [Authentication] (the anonymous credential provider chain:
      localStorage cache first, Cognito basic auth flow second), and
    - [DomEventPlugin] (enable / disable / configure of DOM listeners),
    followed by the properties established about them.

    Everything the two modules import from the browser or from sibling
    modules (JSON, Date, localStorage, the Cognito and STS clients, the
    storage key) is a field of the [Host] class or part of the [World]
    state; the functions of the two source files are definitions over
    them. *)

From Stdlib Require Import ZArith String Ascii List Bool Lia.
From stdpp Require Import base option gmap strings list.
Import ListNotations.

Local Open Scope string_scope.
Local Open Scope Z_scope.

(* ===================================================================== *)
(** * JavaScript values                                                   *)
(* ===================================================================== *)

(** The time value of a Date object: milliseconds since the epoch, or NaN
    for an invalid Date. *)
Inductive timevalue :=
| NaN
| TV (ms : Z).

(** A Number that came out of a JSON text, kept as the decimal numeral that
    denotes it ([mantissa * 10 ^ exponent]); the Number itself is the
    binary64 nearest to it. *)
Inductive number :=
| Decimal (mantissa exponent : Z).

(** Runtime values. Objects carry their own properties in insertion order;
    arrays and Dates are objects too and can receive extra properties. *)
#[warnings="-register-all"]
Inductive value :=
| VUndefined
| VNull
| VBool (b : bool)
| VNum (n : number)
| VStr (s : string)
| VObj (props : list (string * value))
| VArr (items : list value) (props : list (string * value))
| VDate (t : timevalue) (props : list (string * value)).

(** What can be thrown, and what a promise can be rejected with.
    [Undefined] is the reason of a bare [reject()]. *)
Inductive thrown :=
| Undefined
| TypeError
| SyntaxError
| SecurityError
| QuotaExceededError
| ServiceError (message : string).

(** Completion of a synchronous evaluation. *)
Inductive completion (A : Type) :=
| Normal (a : A)
| Throw (e : thrown).
Arguments Normal {A} a.
Arguments Throw {A} e.

Fixpoint lookup_prop (k : string) (props : list (string * value)) : option value :=
  match props with
  | [] => None
  | (k', v) :: rest => if String.eqb k k' then Some v else lookup_prop k rest
  end.

(** [o[k] = v] on the own properties: an existing key keeps its place. *)
Fixpoint set_prop (k : string) (v : value) (props : list (string * value))
  : list (string * value) :=
  match props with
  | [] => [(k, v)]
  | (k', v') :: rest =>
      if String.eqb k k' then (k, v) :: rest else (k', v') :: set_prop k v rest
  end.

(** [v.k] for a key [k] that no built-in prototype defines (such as
    [expiration]): a TypeError on undefined and null, undefined on the
    other primitives and on objects without the property. *)
Definition Get (v : value) (k : string) : completion value :=
  match v with
  | VUndefined | VNull => Throw TypeError
  | VBool _ | VNum _ | VStr _ => Normal VUndefined
  | VObj props | VArr _ props | VDate _ props =>
      Normal (default VUndefined (lookup_prop k props))
  end.

(** [v.k = x] in strict mode code (class bodies are strict): a TypeError
    unless [v] is an object. *)
Definition Put (v : value) (k : string) (x : value) : completion value :=
  match v with
  | VUndefined | VNull | VBool _ | VNum _ | VStr _ => Throw TypeError
  | VObj props => Normal (VObj (set_prop k x props))
  | VArr items props => Normal (VArr items (set_prop k x props))
  | VDate t props => Normal (VDate t (set_prop k x props))
  end.

(** [a < b] when both operands are Date objects: their time values are
    compared as Numbers, and a comparison with NaN is false. Any other
    operand is outside this definition's domain and compares as NaN. *)
Definition Date_valueOf (v : value) : timevalue :=
  match v with
  | VDate t _ => t
  | _ => NaN
  end.

Definition Date_lessThan (a b : value) : bool :=
  match Date_valueOf a, Date_valueOf b with
  | TV x, TV y => x <? y
  | _, _ => false
  end.

(** The Credentials type of @aws-sdk/types: two mandatory strings, an
    optional session token and an optional expiration Date. *)
Record Credentials := {
  accessKeyId : string;
  secretAccessKey : string;
  sessionToken : option string;
  expiration : option timevalue
}.

Definition optional_prop (k : string) (v : option value) : list (string * value) :=
  match v with
  | Some x => [(k, x)]
  | None => []
  end.

(** The object a Credentials record is at run time. *)
Definition Credentials_value (c : Credentials) : value :=
  VObj ([("accessKeyId", VStr (accessKeyId c));
         ("secretAccessKey", VStr (secretAccessKey c))]
        ++ optional_prop "sessionToken" (VStr <$> sessionToken c)
        ++ optional_prop "expiration" ((fun t => VDate t []) <$> expiration c)).

(* ===================================================================== *)
(** * Promises                                                            *)
(* ===================================================================== *)

(** The state a promise ends in. [Pending] is a promise that is never
    settled. *)
Inductive outcome (A : Type) :=
| Fulfilled (a : A)
| Rejected (reason : thrown)
| Pending.
Arguments Fulfilled {A} a.
Arguments Rejected {A} reason.
Arguments Pending {A}.

(** The resolving functions of a promise settle it once; later calls are
    ignored. The cell is [None] while the promise is pending. *)
Definition settle {A} (o : outcome A) (cell : option (outcome A)) : option (outcome A) :=
  match cell with
  | None => Some o
  | Some _ => cell
  end.

(** [new Promise(executor)]: an executor that throws rejects the promise
    unless it is already settled; one that returns without settling leaves
    it pending. *)
Definition promise_of_executor {A} (cell : option (outcome A)) (c : completion unit)
  : outcome A :=
  match cell, c with
  | Some o, _ => o
  | None, Throw e => Rejected e
  | None, Normal _ => Pending
  end.

(** The body of an executor: statements that complete normally or throw,
    over the settlement cell of the promise under construction. *)
Definition executor (T A : Type) : Type :=
  option (outcome T) -> completion A * option (outcome T).

#[global] Instance executor_ret {T} : MRet (executor T) :=
  fun A a cell => (Normal a, cell).

#[global] Instance executor_bind {T} : MBind (executor T) :=
  fun A B f m cell =>
    match m cell with
    | (Normal a, cell') => f a cell'
    | (Throw e, cell') => (Throw e, cell')
    end.

(** An expression that evaluates without touching the promise. *)
Definition eval {T A} (c : completion A) : executor T A :=
  fun cell => (c, cell).

(** [reject(reason)] and [resolve(v)] *)
Definition reject {T} (reason : thrown) : executor T unit :=
  fun cell => (Normal tt, settle (Rejected reason) cell).

Definition resolve {T} (v : T) : executor T unit :=
  fun cell => (Normal tt, settle (Fulfilled v) cell).

(** [try { body } catch (e) { handler }] *)
Definition try_catch {T A} (body : executor T A) (handler : thrown -> executor T A)
  : executor T A :=
  fun cell =>
    match body cell with
    | (Normal a, cell') => (Normal a, cell')
    | (Throw e, cell') => handler e cell'
    end.

Definition new_Promise {T} (body : executor T unit) : outcome T :=
  let '(c, cell) := body None in promise_of_executor cell c.

(* ===================================================================== *)
(** * The world: localStorage, the clock and the remote calls made         *)
(* ===================================================================== *)

(** Modelled from the spec: the Config type of ../orchestration is not in
    the sources; the two fields read here are an identity-pool identifier
    and a guest role reference, both strings. *)
Record Config := {
  identityPoolId : string;
  guestRoleArn : string
}.

(** The handler of @aws-sdk/fetch-http-handler, of which the constructor
    makes one for each client. *)
Inductive FetchHttpHandler := FetchHttpHandler_new.

(** What the constructor passes to [new StsClient] and to
    [new CognitoIdentityClient]; the two classes themselves are not in the
    sources, and a client is known here by what it was constructed with. *)
Record ClientConfig := {
  fetchRequestHandler : FetchHttpHandler;
  region : string
}.

Record StsClient := StsClient_new { sts_config : ClientConfig }.
Record CognitoIdentityClient := CognitoIdentityClient_new { cognito_config : ClientConfig }.

(** The request of getId, as the Cognito provider builds it. *)
Record GetIdRequest := { IdentityPoolId : string }.

(** Modelled from the spec: the response of getId, which is not in the
    sources, is an identity reference ([obtainIdentity -> {identityId}]).
    It is passed on whole to getOpenIdToken. *)
Record GetIdResponse := { IdentityId : string }.

(** Modelled from the spec: the response of getOpenIdToken, which is not in
    the sources, carries the identity token
    ([exchangeIdentityForToken -> {token}]). *)
Record GetOpenIdTokenResponse := { Token : string }.

(** The request of assumeRoleWithWebIdentity, as the Cognito provider
    builds it. *)
Record AssumeRoleWithWebIdentityRequest := {
  RoleArn : string;
  RoleSessionName : string;
  WebIdentityToken : string
}.

(** A call made to one of the services. *)

Inductive RemoteCall :=
| CallGetId (client : CognitoIdentityClient) (request : GetIdRequest)
| CallGetOpenIdToken (client : CognitoIdentityClient) (request : GetIdResponse)
| CallAssumeRoleWithWebIdentity (client : StsClient)
    (request : AssumeRoleWithWebIdentityRequest).

(** localStorage of the page's origin. Access throws when storage is
    disabled; a write throws when the stored text would exceed the quota. *)
Record Storage := {
  items : gmap string string;
  accessible : bool;
  quota : N
}.

Definition storage_size (m : gmap string string) : N :=
  map_fold (fun k v acc => (N.of_nat (String.length k + String.length v) + acc)%N) 0%N m.

Definition getItem (k : string) (st : Storage) : completion (option string) :=
  if accessible st then Normal (items st !! k) else Throw SecurityError.

Definition setItem (k v : string) (st : Storage) : completion Storage :=
  if negb (accessible st) then Throw SecurityError
  else
    let items' := <[k := v]> (items st) in
    if (quota st <? storage_size items')%N then Throw QuotaExceededError
    else Normal {| items := items'; accessible := true; quota := quota st |}.

Record World := {
  localStorage : Storage;
  clock : Z;
  remoteCalls : list RemoteCall
}.

Definition with_storage (st : Storage) (w : World) : World :=
  {| localStorage := st; clock := clock w; remoteCalls := remoteCalls w |}.

Definition with_call (c : RemoteCall) (w : World) : World :=
  {| localStorage := localStorage w; clock := clock w;
     remoteCalls := remoteCalls w ++ [c] |}.

(** An asynchronous operation run to its end: the outcome of the promise it
    returns and the world it leaves. *)
Definition async (A : Type) := World -> outcome A * World.

(** [p.then(f)] *)
Definition then_ {A B} (p : async A) (f : A -> async B) : async B :=
  fun w =>
    match p w with
    | (Fulfilled a, w') => f a w'
    | (Rejected e, w') => (Rejected e, w')
    | (Pending, w') => (Pending, w')
    end.

(** [p.catch(f)] *)
Definition catch_ {A} (p : async A) (f : thrown -> async A) : async A :=
  fun w =>
    match p w with
    | (Fulfilled a, w') => (Fulfilled a, w')
    | (Rejected e, w') => f e w'
    | (Pending, w') => (Pending, w')
    end.

(** A callback that returns a plain value (or throws) instead of a promise. *)
Definition callback {A} (f : World -> completion A * World) : async A :=
  fun w =>
    match f w with
    | (Normal a, w') => (Fulfilled a, w')
    | (Throw e, w') => (Rejected e, w')
    end.

(* ===================================================================== *)
(** * The host environment                                                *)
(* ===================================================================== *)

(** What Authentication imports: the storage key of ../utils/constants,
    the JSON and Date built-ins, and the operations of the two service
    clients. *)
Class Host := {
  CRED_KEY : string;
  (** [JSON.parse(text)]; [None] is a SyntaxError. *)
  JSON_parse : string -> option value;
  (** [JSON.stringify(credentials)] of a Credentials object; [None] is an
      exception. *)
  JSON_stringify : Credentials -> option string;
  (** The time value of [new Date(v)]. *)
  Date_new : value -> timevalue;
  (** [Date.prototype.toISOString], the text a valid Date is serialized to. *)
  Date_toISOString : Z -> string;
  cognito_getId : CognitoIdentityClient -> GetIdRequest -> outcome GetIdResponse;
  cognito_getOpenIdToken :
    CognitoIdentityClient -> GetIdResponse -> outcome GetOpenIdTokenResponse;
  sts_assumeRoleWithWebIdentity :
    StsClient -> AssumeRoleWithWebIdentityRequest -> outcome Credentials
}.

(** [String(x)] of what [getItem] returns: the text, or "null". *)
Definition ToString_item (x : option string) : string :=
  default "null" x.

(* ===================================================================== *)
(** * Authentication                                                      *)
(* ===================================================================== *)

(** [s.split(':')]: the segments between the separators; never empty. *)
Fixpoint split (sep : ascii) (s : string) : list string :=
  match s with
  | EmptyString => [EmptyString]
  | String c rest =>
      if Ascii.eqb c sep then EmptyString :: split sep rest
      else
        match split sep rest with
        | seg :: segs => String c seg :: segs
        | [] => [String c EmptyString]
        end
  end.

Record Authentication := {
  cognitoIdentityClient : CognitoIdentityClient;
  stsClient : StsClient;
  config : Config
}.

Definition Authentication_constructor (config : Config) : Authentication :=
  let region : string := default "" (split ":" (identityPoolId config) !! 0%nat) in
  {| config := config;
     stsClient := StsClient_new
       {| fetchRequestHandler := FetchHttpHandler_new; region := region |};
     cognitoIdentityClient := CognitoIdentityClient_new
       {| fetchRequestHandler := FetchHttpHandler_new; region := region |} |}.

Section Providers.
Context `{Host}.

(** The three remote operations: the call is recorded, the service
    answers. *)
Definition getId (client : CognitoIdentityClient) (request : GetIdRequest)
  : async GetIdResponse :=
  fun w => (cognito_getId client request, with_call (CallGetId client request) w).

Definition getOpenIdToken (client : CognitoIdentityClient) (request : GetIdResponse)
  : async GetOpenIdTokenResponse :=
  fun w => (cognito_getOpenIdToken client request,
            with_call (CallGetOpenIdToken client request) w).

Definition assumeRoleWithWebIdentity (client : StsClient)
    (request : AssumeRoleWithWebIdentityRequest) : async Credentials :=
  fun w => (sts_assumeRoleWithWebIdentity client request,
            with_call (CallAssumeRoleWithWebIdentity client request) w).

(** The try block of the cookie provider:
    [credentials = JSON.parse(localStorage.getItem(CRED_KEY))]. *)
Definition read_credentials (w : World) : completion value :=
  match getItem CRED_KEY (localStorage w) with
  | Throw e => Throw e
  | Normal item =>
      match JSON_parse (ToString_item item) with
      | Some v => Normal v
      | None => Throw SyntaxError
      end
  end.

(** The cookie provider. [credentials] is still undefined after the catch
    clause, which does not return: the statements after it run all the
    same. *)
Definition AnonymousCookieCredentialsProvider : async value :=
  fun w =>
    (new_Promise
       (credentials ←
          try_catch (eval (read_credentials w))
            (fun _ => reject Undefined ;; mret VUndefined);
        (* credentials.expiration = new Date(credentials.expiration); *)
        serialized ← eval (Get credentials "expiration");
        credentials ←
          eval (Put credentials "expiration" (VDate (Date_new serialized) []));
        (* if (credentials.expiration < new Date()) reject(); *)
        expiration ← eval (Get credentials "expiration");
        (if Date_lessThan expiration (VDate (TV (clock w)) [])
         then reject Undefined
         else mret tt) ;;
        resolve credentials),
     w).

(** The last callback of the Cognito provider: the cache write, whose
    exception is ignored, and the credentials handed on. *)
Definition store_credentials (credentials : Credentials)
  : World -> completion Credentials * World :=
  fun w =>
    let w' :=
      match JSON_stringify credentials with
      | None => w
      | Some text =>
          match setItem CRED_KEY text (localStorage w) with
          | Normal st => with_storage st w
          | Throw _ => w
          end
      end in
    (Normal credentials, w').

Definition AnonymousCognitoCredentialsProvider (this : Authentication)
  : async Credentials :=
  then_
    (then_
       (then_
          (getId (cognitoIdentityClient this)
             {| IdentityPoolId := identityPoolId (config this) |})
          (fun getIdResponse =>
             getOpenIdToken (cognitoIdentityClient this) getIdResponse))
       (fun getOpenIdTokenResponse =>
          assumeRoleWithWebIdentity (stsClient this)
            {| RoleArn := guestRoleArn (config this);
               RoleSessionName := "cwr";
               WebIdentityToken := Token getOpenIdTokenResponse |}))
    (fun credentials => callback (store_credentials credentials)).

(** The chain: the cookie provider, and on its rejection (whose reason is
    not looked at) the Cognito provider. The two meet at the run-time type:
    the Credentials of the Cognito provider are handed on as the object
    they are. *)
Definition ChainAnonymousCredentialsProvider (this : Authentication)
  : async value :=
  catch_ AnonymousCookieCredentialsProvider
    (fun _ => then_ (AnonymousCognitoCredentialsProvider this)
                (fun credentials w => (Fulfilled (Credentials_value credentials), w))).

End Providers.

(* ===================================================================== *)
(** * DomEventPlugin                                                      *)
(* ===================================================================== *)

Module DomEventPlugin.

Definition DOM_EVENT_PLUGIN_ID : string := "com.amazonaws.rum.dom-event".

(** A TargetDomEvent object. [self] is the identity of the object, which
    is what the eventListenerMap is keyed on; [element] is the identity of
    an HTMLElement. *)
Record TargetDomEvent := {
  self : nat;
  event : string;
  elementId : option string;
  element : option nat
}.

(** The page: which element [getElementById] finds for an id, the
    (type, listener) pairs registered on each element, and the identity
    the next function object gets. *)
Record Page := {
  elementsById : gmap string nat;
  listeners : gmap nat (list (string * nat));
  nextFunction : nat
}.

Record DomEventPlugin := {
  recordEvent : option nat;
  configuration : list TargetDomEvent;
  pluginId : string;
  eventListenerMap : gmap nat nat;
  enabled : bool
}.

Definition same_listener (a b : string * nat) : bool :=
  String.eqb (fst a) (fst b) && Nat.eqb (snd a) (snd b).

(** [el.addEventListener(type, listener)]: a pair already registered is
    not registered twice. *)
Definition addEventListener (el : nat) (type : string) (listener : nat) (pg : Page)
  : Page :=
  let registered := default [] (listeners pg !! el) in
  if List.existsb (same_listener (type, listener)) registered then pg
  else {| elementsById := elementsById pg;
          listeners := <[el := (registered ++ [(type, listener)])%list]> (listeners pg);
          nextFunction := nextFunction pg |}.

(** [el.removeEventListener(type, listener)] *)
Definition removeEventListener (el : nat) (type : string) (listener : nat) (pg : Page)
  : Page :=
  match listeners pg !! el with
  | None => pg
  | Some registered =>
      {| elementsById := elementsById pg;
         listeners :=
           <[el := List.filter (fun r => negb (same_listener (type, listener) r))
                     registered]> (listeners pg);
         nextFunction := nextFunction pg |}
  end.

Definition getElementById (id : string) (pg : Page) : option nat :=
  elementsById pg !! id.

(** Truthiness of an optional string: undefined and the empty string are
    falsy. *)
Definition truthy (s : option string) : option string :=
  match s with
  | Some EmptyString => None
  | _ => s
  end.

Definition constructor : DomEventPlugin :=
  {| recordEvent := None;
     configuration := [];
     pluginId := DOM_EVENT_PLUGIN_ID;
     eventListenerMap := ∅;
     enabled := true |}.

Definition load (context_record : nat) (this : DomEventPlugin) : DomEventPlugin :=
  {| recordEvent := Some context_record;
     configuration := configuration this;
     pluginId := pluginId this;
     eventListenerMap := eventListenerMap this;
     enabled := enabled this |}.

Definition getPluginId (this : DomEventPlugin) : string := pluginId this.

Definition with_map (m : gmap nat nat) (this : DomEventPlugin) : DomEventPlugin :=
  {| recordEvent := recordEvent this;
     configuration := configuration this;
     pluginId := pluginId this;
     eventListenerMap := m;
     enabled := enabled this |}.

Definition with_enabled (b : bool) (this : DomEventPlugin) : DomEventPlugin :=
  {| recordEvent := recordEvent this;
     configuration := configuration this;
     pluginId := pluginId this;
     eventListenerMap := eventListenerMap this;
     enabled := b |}.

(** [getEventListener()] makes a new function object each time. *)
Definition getEventListener (pg : Page) : nat * Page :=
  (nextFunction pg,
   {| elementsById := elementsById pg;
      listeners := listeners pg;
      nextFunction := S (nextFunction pg) |}).

Definition addEventHandler (domEvent : TargetDomEvent)
    (st : DomEventPlugin * Page) : DomEventPlugin * Page :=
  let '(this, pg) := st in
  let eventType := event domEvent in
  let '(eventListener, pg) := getEventListener pg in
  let this := with_map (<[self domEvent := eventListener]> (eventListenerMap this)) this in
  match truthy (elementId domEvent) with
  | Some id =>
      match getElementById id pg with
      | Some el => (this, addEventListener el eventType eventListener pg)
      | None => (this, pg)
      end
  | None =>
      match element domEvent with
      | Some el => (this, addEventListener el eventType eventListener pg)
      | None => (this, pg)
      end
  end.

Definition removeEventHandler (domEvent : TargetDomEvent)
    (st : DomEventPlugin * Page) : DomEventPlugin * Page :=
  let '(this, pg) := st in
  let eventListener := eventListenerMap this !! self domEvent in
  let pg :=
    match truthy (elementId domEvent), eventListener with
    | Some id, Some l =>
        match getElementById id pg with
        | Some el => removeEventListener el (event domEvent) l pg
        | None => pg
        end
    | _, _ =>
        match element domEvent, eventListener with
        | Some el, Some l => removeEventListener el (event domEvent) l pg
        | _, _ => pg
        end
    end in
  (with_map (delete (self domEvent) (eventListenerMap this)) this, pg).

(** [config.forEach(f)] *)
Definition forEach {S} (config : list TargetDomEvent)
    (f : TargetDomEvent -> S -> S) (st : S) : S :=
  fold_left (fun st domEvent => f domEvent st) config st.

Definition removeListeners (config : list TargetDomEvent)
    (st : DomEventPlugin * Page) : DomEventPlugin * Page :=
  forEach config removeEventHandler st.

Definition addListeners (config : list TargetDomEvent)
    (st : DomEventPlugin * Page) : DomEventPlugin * Page :=
  forEach config addEventHandler st.

Definition enable (st : DomEventPlugin * Page) : DomEventPlugin * Page :=
  if enabled (fst st) then st
  else
    let '(this, pg) := addListeners (configuration (fst st)) st in
    (with_enabled true this, pg).

Definition disable (st : DomEventPlugin * Page) : DomEventPlugin * Page :=
  if negb (enabled (fst st)) then st
  else
    let '(this, pg) := removeListeners (configuration (fst st)) st in
    (with_enabled false this, pg).

Definition configure (config : list TargetDomEvent)
    (st : DomEventPlugin * Page) : DomEventPlugin * Page :=
  let '(this, pg) :=
    if enabled (fst st)
    then addListeners config (removeListeners (configuration (fst st)) st)
    else st in
  ({| recordEvent := recordEvent this;
      configuration := config;
      pluginId := pluginId this;
      eventListenerMap := eventListenerMap this;
      enabled := enabled this |}, pg).

(** The target of an event as [getElementId] tells targets apart: an
    Element, with its id (the empty text when it has none) and its node
    name; a Node that is not an Element; or a target that is not a Node. *)
Inductive EventTarget :=
| AnElement (id nodeName : string)
| ANode (nodeName : string)
| NotANode.

Record Event := {
  type : string;
  target : option EventTarget
}.

Definition getElementId (ev : Event) : string :=
  match target ev with
  | None => ""
  | Some (AnElement id nodeName) =>
      if negb (String.eqb id "") then id else nodeName
  | Some (ANode nodeName) => nodeName
  | Some NotANode => ""
  end.

(** The event data a listener builds (the DomEvent of ../../events). *)
Module DomEvent.
Record t := {
  version : string;
  event : string;
  elementId : string
}.
End DomEvent.

Section Listener.
(** The event type of ../utils/constant. *)
Variable DOM_EVENT_TYPE : string.

(** The function [getEventListener] returns, called with an event: the
    call it makes to [recordEvent] (callee, type, data), if it makes one.
    The function reads [this.recordEvent] when it is called. *)
Definition eventListener (this : DomEventPlugin) (ev : Event)
  : option (nat * string * DomEvent.t) :=
  let eventData :=
    {| DomEvent.version := "1.0.0";
       DomEvent.event := type ev;
       DomEvent.elementId := getElementId ev |} in
  match recordEvent this with
  | Some record => Some (record, DOM_EVENT_TYPE, eventData)
  | None => None
  end.

End Listener.

End DomEventPlugin.

(** ** Calls on a plugin, and what is on the page *)

Module PluginRuns.
Import DomEventPlugin.

(** The listeners registered on an element. *)
Definition registered (el : nat) (pg : Page) : list (string * nat) :=
  default [] (listeners pg !! el).

(** The element a TargetDomEvent stands for on the page: the one its
    elementId finds, or else its element. *)
Definition resolve_target (d : TargetDomEvent) (pg : Page) : option nat :=
  match truthy (elementId d) with
  | Some id => getElementById id pg
  | None => element d
  end.

(** The listeners a configuration has on an element when the function
    objects of its entries are [n], [n + 1], ... in order. *)
Fixpoint owned (n : nat) (config : list TargetDomEvent) (pg : Page) (el : nat)
  : list (string * nat) :=
  match config with
  | [] => []
  | d :: rest =>
      ((if decide (resolve_target d pg = Some el) then [(event d, n)] else [])
       ++ owned (S n) rest pg el)%list
  end.

(** The public methods, as calls. *)
Inductive call :=
| Load (context_record : nat)
| Enable
| Disable
| Configure (config : list TargetDomEvent).

Definition step (c : call) (st : DomEventPlugin * Page) : DomEventPlugin * Page :=
  match c with
  | Load r => (load r (fst st), snd st)
  | Enable => enable st
  | Disable => disable st
  | Configure config => configure config st
  end.

Definition run (calls : list call) (st : DomEventPlugin * Page) : DomEventPlugin * Page :=
  fold_left (fun st c => step c st) calls st.



(** Every function object on the page is older than the next one made. *)
Definition fresh (pg : Page) : Prop :=
  forall el ty l, (ty, l) ∈ registered el pg -> (l < nextFunction pg)%nat.

(** The last context loaded, the last configuration given and the last
    switch thrown by a sequence of calls, starting from [r], [config] and
    [on]. *)
Fixpoint last_loaded (calls : list call) (r : option nat) : option nat :=
  match calls with
  | [] => r
  | Load r' :: rest => last_loaded rest (Some r')
  | _ :: rest => last_loaded rest r
  end.

Fixpoint last_configured (calls : list call) (config : list TargetDomEvent)
  : list TargetDomEvent :=
  match calls with
  | [] => config
  | Configure config' :: rest => last_configured rest config'
  | _ :: rest => last_configured rest config
  end.

Fixpoint last_switch (calls : list call) (on : bool) : bool :=
  match calls with
  | [] => on
  | Enable :: rest => last_switch rest true
  | Disable :: rest => last_switch rest false
  | _ :: rest => last_switch rest on
  end.


(** The plugin listens as [config] says: entry [i] has a function object of
    its own, [n + i], made after the plugin started; the map holds it
    under the entry, and nothing else; and every element has, after the
    listeners it had on [pg0], one listener for each entry that stands for
    it, in the order of the configuration. *)
Definition listening (pg0 : Page) (config : list TargetDomEvent)
    (m : gmap nat nat) (pg : Page) : Prop :=
  exists n,
    (nextFunction pg0 <= n)%nat
    /\ (n + length config <= nextFunction pg)%nat
    /\ (forall i d, config !! i = Some d -> m !! self d = Some (n + i)%nat)
    /\ (forall k, is_Some (m !! k) -> k ∈ self <$> config)
    /\ (forall el,
           registered el pg = (registered el pg0 ++ owned n config pg0 el)%list).




End PluginRuns.

(* ===================================================================== *)
(** * A reference host                                                    *)
(* ===================================================================== *)

(** A host on which the providers can be run: JSON text as ECMA-404 defines
    it, Dates in the Date Time String Format of ECMAScript (other date
    texts, which engines read by rules of their own, are NaN here; local
    time is UTC), and service clients that answer with fixed outcomes.
    Strings are the UTF-8 bytes of the text. *)
Module ReferenceHost.

Definition code (c : ascii) : Z := Z.of_nat (nat_of_ascii c).
Definition char (n : Z) : ascii := ascii_of_nat (Z.to_nat n).

Definition digit_value (c : ascii) : option Z :=
  if (48 <=? code c) && (code c <=? 57) then Some (code c - 48) else None.

(** Exactly [n] decimal digits. *)
Fixpoint digits (n : nat) (cs : list ascii) (acc : Z) : option (Z * list ascii) :=
  match n, cs with
  | O, _ => Some (acc, cs)
  | S n', c :: r =>
      match digit_value c with
      | Some d => digits n' r (10 * acc + d)
      | None => None
      end
  | S _, [] => None
  end.

(** [n] in [width] decimal digits. *)
Fixpoint pad (width : nat) (n : Z) : string :=
  match width with
  | O => EmptyString
  | S w => pad w (n / 10) ++ String (char (48 + n mod 10)) EmptyString
  end.

(** ** Calendar *)

Definition days_from_civil (y m d : Z) : Z :=
  let y := if m <=? 2 then y - 1 else y in
  let era := y / 400 in
  let yoe := y - era * 400 in
  let mp := (m + 9) mod 12 in
  let doy := (153 * mp + 2) / 5 + d - 1 in
  let doe := yoe * 365 + yoe / 4 - yoe / 100 + doy in
  era * 146097 + doe - 719468.

Definition civil_from_days (z : Z) : Z * Z * Z :=
  let z := z + 719468 in
  let era := z / 146097 in
  let doe := z - era * 146097 in
  let yoe := (doe - doe / 1460 + doe / 36524 - doe / 146096) / 365 in
  let doy := doe - (365 * yoe + yoe / 4 - yoe / 100) in
  let mp := (5 * doy + 2) / 153 in
  let d := doy - (153 * mp + 2) / 5 + 1 in
  let m := if mp <? 10 then mp + 3 else mp - 9 in
  let y := yoe + era * 400 in
  (if m <=? 2 then y + 1 else y, m, d).

Definition leap (y : Z) : bool :=
  ((y mod 4 =? 0) && negb (y mod 100 =? 0)) || (y mod 400 =? 0).

Definition days_in_month (y m : Z) : Z :=
  if m =? 2 then (if leap y then 29 else 28)
  else if (m =? 4) || (m =? 6) || (m =? 9) || (m =? 11) then 30
  else 31.

Definition TimeClip (t : Z) : timevalue :=
  if Z.abs t <=? 8640000000000000 then TV t else NaN.

(** ** Date.prototype.toISOString *)

Definition toISOString (t : Z) : string :=
  let '(y, m, d) := civil_from_days (t / 86400000) in
  let ms := t mod 86400000 in
  let year :=
    if (0 <=? y) && (y <=? 9999) then pad 4 y
    else (if y <? 0 then "-" else "+") ++ pad 6 (Z.abs y) in
  year ++ "-" ++ pad 2 m ++ "-" ++ pad 2 d ++ "T"
    ++ pad 2 (ms / 3600000) ++ ":" ++ pad 2 (ms / 60000 mod 60) ++ ":"
    ++ pad 2 (ms / 1000 mod 60) ++ "." ++ pad 3 (ms mod 1000) ++ "Z".

(** ** Date.parse on the Date Time String Format *)

Definition parse_year (cs : list ascii) : option (Z * list ascii) :=
  match cs with
  | "+"%char :: r => digits 6 r 0
  | "-"%char :: r =>
      match digits 6 r 0 with
      | Some (y, r') => if y =? 0 then None else Some (- y, r')
      | None => None
      end
  | _ => digits 4 cs 0
  end.

(** Year, month and day of one of the forms YYYY, YYYY-MM, YYYY-MM-DD. *)
Definition parse_date (cs : list ascii) : option (Z * Z * Z * list ascii) :=
  match parse_year cs with
  | None => None
  | Some (y, r) =>
      match r with
      | "-"%char :: r1 =>
          match digits 2 r1 0 with
          | None => None
          | Some (m, r2) =>
              match r2 with
              | "-"%char :: r3 =>
                  match digits 2 r3 0 with
                  | Some (d, r4) => Some (y, m, d, r4)
                  | None => None
                  end
              | _ => Some (y, m, 1, r2)
              end
          end
      | _ => Some (y, 1, 1, r)
      end
  end.

(** The offset from UTC in minutes: nothing, Z, or a signed HH:mm. *)
Definition parse_zone (cs : list ascii) : option Z :=
  match cs with
  | [] => Some 0
  | ["Z"%char] => Some 0
  | sign :: r =>
      match digits 2 r 0 with
      | Some (h, ":"%char :: r1) =>
          match digits 2 r1 0 with
          | Some (m, []) =>
              if (h <=? 23) && (m <=? 59) then
                if Ascii.eqb sign "+" then Some (h * 60 + m)
                else if Ascii.eqb sign "-" then Some (- (h * 60 + m))
                else None
              else None
          | _ => None
          end
      | _ => None
      end
  end.

(** Milliseconds in the day of one of the forms THH:mm, THH:mm:ss,
    THH:mm:ss.sss, less the offset. *)
Definition parse_time (cs : list ascii) : option Z :=
  match cs with
  | [] => Some 0
  | "T"%char :: r =>
      match digits 2 r 0 with
      | Some (h, ":"%char :: r1) =>
          match digits 2 r1 0 with
          | None => None
          | Some (mi, r2) =>
              let '(s, ms, r3) :=
                match r2 with
                | ":"%char :: r2' =>
                    match digits 2 r2' 0 with
                    | Some (s, "."%char :: r2'') =>
                        match digits 3 r2'' 0 with
                        | Some (ms, r') => (Some s, Some ms, r')
                        | None => (None, None, [])
                        end
                    | Some (s, r') => (Some s, Some 0, r')
                    | None => (None, None, [])
                    end
                | _ => (Some 0, Some 0, r2)
                end in
              match s, ms, parse_zone r3 with
              | Some s, Some ms, Some offset =>
                  if ((h <=? 23) && (mi <=? 59) && (s <=? 59))
                     || ((h =? 24) && (mi =? 0) && (s =? 0) && (ms =? 0))
                  then Some (h * 3600000 + mi * 60000 + s * 1000 + ms - offset * 60000)
                  else None
              | _, _, _ => None
              end
          end
      | _ => None
      end
  | _ => None
  end.

Definition Date_parse (s : string) : timevalue :=
  match parse_date (list_ascii_of_string s) with
  | None => NaN
  | Some (y, m, d, r) =>
      if (1 <=? m) && (m <=? 12) && (1 <=? d) && (d <=? days_in_month y m) then
        match parse_time r with
        | Some ms => TimeClip (days_from_civil y m d * 86400000 + ms)
        | None => NaN
        end
      else NaN
  end.

(** ** Numbers *)

(** The binary64 nearest to the positive rational [num / den], when it is
    at least 1/2 and below 2^53: a pair [(r, k)] standing for [r / 2^k],
    with [2^52 <= r <= 2^53]. Ties go to the even significand. *)
Definition nearest_binary64 (num den : Z) : Z * Z :=
  let k0 := 52 - (Z.log2 num - Z.log2 den) in
  let k := if 2 ^ 52 * den <=? num * 2 ^ k0 then k0 else k0 + 1 in
  let q := (num * 2 ^ k) / den in
  let rem := (num * 2 ^ k) mod den in
  let up := (den <? 2 * rem) || ((den =? 2 * rem) && Z.odd q) in
  (if up then q + 1 else q, k).

(** [ToIntegerOrInfinity] of the Number a numeral denotes, when its
    magnitude is below 2^53. *)
Definition Number_integer (n : number) : option Z :=
  let '(Decimal m e) := n in
  let num := if 0 <=? e then Z.abs m * 10 ^ e else Z.abs m in
  let den := if 0 <=? e then 1 else 10 ^ (- e) in
  if num =? 0 then Some 0
  else if 2 ^ 53 * den <=? num then None
  else if 2 * num <? den then Some 0
  else
    let '(r, k) := nearest_binary64 num den in
    Some (Z.sgn m * (r / 2 ^ k)).

(** Whether that Number is a whole number, and which. *)
Definition Number_whole (n : number) : option Z :=
  let '(Decimal m e) := n in
  let num := if 0 <=? e then Z.abs m * 10 ^ e else Z.abs m in
  let den := if 0 <=? e then 1 else 10 ^ (- e) in
  if (num =? 0) || (2 ^ 53 * den <=? num) || (2 * num <? den) then None
  else
    let '(r, k) := nearest_binary64 num den in
    if r mod 2 ^ k =? 0 then Some (Z.sgn m * (r / 2 ^ k)) else None.

(** ** new Date(value) *)

(** The time value of [new Date([x])] for a one-element array: the array
    converts to the text of its element. A whole number of four digits
    reads as a year; texts that are not in the Date Time String Format
    are NaN. *)
Fixpoint Date_of_element (x : value) : timevalue :=
  match x with
  | VStr s => Date_parse s
  | VNum n =>
      match Number_whole n with
      | Some y =>
          if (1000 <=? y) && (y <=? 9999)
          then TV (days_from_civil y 1 1 * 86400000)
          else NaN
      | None => NaN
      end
  | VArr [y] _ => Date_of_element y
  | _ => NaN
  end.

Definition Date_new (v : value) : timevalue :=
  match v with
  | VUndefined => NaN
  | VNull => TV 0
  | VBool b => TV (if b then 1 else 0)
  | VNum n =>
      match Number_integer n with
      | Some t => TimeClip t
      | None => NaN
      end
  | VStr s => Date_parse s
  | VDate t _ => t
  | VArr [x] _ => Date_of_element x
  | VArr _ _ => NaN
  | VObj _ => NaN
  end.

(** ** JSON.parse *)

Definition is_whitespace (c : ascii) : bool :=
  (code c =? 32) || (code c =? 9) || (code c =? 10) || (code c =? 13).

Fixpoint skip_whitespace (cs : list ascii) : list ascii :=
  match cs with
  | c :: r => if is_whitespace c then skip_whitespace r else cs
  | [] => []
  end.

Definition hex_value (c : ascii) : option Z :=
  let n := code c in
  if (48 <=? n) && (n <=? 57) then Some (n - 48)
  else if (65 <=? n) && (n <=? 70) then Some (n - 55)
  else if (97 <=? n) && (n <=? 102) then Some (n - 87)
  else None.

Definition hex4 (a b c d : ascii) : option Z :=
  match hex_value a, hex_value b, hex_value c, hex_value d with
  | Some a, Some b, Some c, Some d => Some (((a * 16 + b) * 16 + c) * 16 + d)
  | _, _, _, _ => None
  end.

(** The UTF-8 bytes of a code point (a lone surrogate is written the same
    way, in three bytes). *)
Definition utf8 (cp : Z) : list ascii :=
  if cp <? 128 then [char cp]
  else if cp <? 2048 then [char (192 + cp / 64); char (128 + cp mod 64)]
  else if cp <? 65536 then
    [char (224 + cp / 4096); char (128 + cp / 64 mod 64); char (128 + cp mod 64)]
  else
    [char (240 + cp / 262144); char (128 + cp / 4096 mod 64);
     char (128 + cp / 64 mod 64); char (128 + cp mod 64)].

Definition is_high_surrogate (u : Z) : bool := (55296 <=? u) && (u <=? 56319).
Definition is_low_surrogate (u : Z) : bool := (56320 <=? u) && (u <=? 57343).

(** The bytes written so far (last first), with the code unit of a
    \u escape that may still pair up with the next one. *)
Definition flush (high : option Z) (acc : list ascii) : list ascii :=
  match high with
  | Some h => (rev (utf8 h) ++ acc)%list
  | None => acc
  end.

(** The characters of a string after its opening quote. *)
Fixpoint parse_characters (cs : list ascii) (high : option Z) (acc : list ascii)
  : option (string * list ascii) :=
  match cs with
  | [] => None
  | "034"%char :: r => Some (string_of_list_ascii (rev (flush high acc)), r)
  | "\"%char :: "u"%char :: a :: b :: c :: d :: r =>
      match hex4 a b c d with
      | None => None
      | Some u =>
          match high with
          | Some h =>
              if is_low_surrogate u
              then parse_characters r None
                     (rev (utf8 (65536 + (h - 55296) * 1024 + (u - 56320))) ++ acc)%list
              else if is_high_surrogate u
              then parse_characters r (Some u) (flush high acc)
              else parse_characters r None (rev (utf8 u) ++ flush high acc)%list
          | None =>
              if is_high_surrogate u then parse_characters r (Some u) acc
              else parse_characters r None (rev (utf8 u) ++ acc)%list
          end
      end
  | "\"%char :: e :: r =>
      let plain (c : ascii) := parse_characters r None (c :: flush high acc) in
      match e with
      | "034"%char | "\"%char | "/"%char => plain e
      | "b"%char => plain "008"%char
      | "f"%char => plain "012"%char
      | "n"%char => plain "010"%char
      | "r"%char => plain "013"%char
      | "t"%char => plain "009"%char
      | _ => None
      end
  | c :: r =>
      if code c <? 32 then None
      else parse_characters r None (c :: flush high acc)
  end.

(** A run of decimal digits: its value, its length and what follows. *)
Fixpoint digit_run (cs : list ascii) (acc : Z) (len : Z) : Z * Z * list ascii :=
  match cs with
  | c :: r =>
      match digit_value c with
      | Some d => digit_run r (10 * acc + d) (len + 1)
      | None => (acc, len, cs)
      end
  | [] => (acc, len, [])
  end.

Definition parse_number (cs : list ascii) : option (number * list ascii) :=
  let '(negative, cs) :=
    match cs with
    | "-"%char :: r => (true, r)
    | _ => (false, cs)
    end in
  let '(int, len, r) := digit_run cs 0 0 in
  let leading_zero :=
    match cs with
    | "0"%char :: _ => 1 <? len
    | _ => false
    end in
  if (len =? 0) || leading_zero then None
  else
    let fraction :=
      match r with
      | "."%char :: r1 =>
          let '(m, flen, r2) := digit_run r1 int 0 in
          if flen =? 0 then None else Some (m, flen, r2)
      | _ => Some (int, 0, r)
      end in
    match fraction with
    | None => None
    | Some (m, flen, r2) =>
        let exponent :=
          match r2 with
          | c :: r3 =>
              if Ascii.eqb c "e" || Ascii.eqb c "E" then
                let '(minus, r4) :=
                  match r3 with
                  | "-"%char :: r' => (true, r')
                  | "+"%char :: r' => (false, r')
                  | _ => (false, r3)
                  end in
                let '(e, elen, r5) := digit_run r4 0 0 in
                if elen =? 0 then None
                else Some (if minus then - e else e, r5)
              else Some (0, r2)
          | [] => Some (0, r2)
          end in
        match exponent with
        | None => None
        | Some (e, r5) =>
            Some (Decimal (if negative then - m else m) (e - flen), r5)
        end
    end.

Definition option_bind {A B} (o : option A) (f : A -> option B) : option B :=
  match o with
  | Some a => f a
  | None => None
  end.

(** A value, the elements of an array after its bracket, the members of
    an object after its brace. A member whose key is already there
    replaces it. *)
Fixpoint parse_value (fuel : nat) (cs : list ascii) : option (value * list ascii) :=
  match fuel with
  | O => None
  | S fuel =>
      match skip_whitespace cs with
      | "{"%char :: r =>
          match skip_whitespace r with
          | "}"%char :: r' => Some (VObj [], r')
          | r' => parse_members fuel r' []
          end
      | "["%char :: r =>
          match skip_whitespace r with
          | "]"%char :: r' => Some (VArr [] [], r')
          | r' => parse_elements fuel r' []
          end
      | "034"%char :: r =>
          option_bind (parse_characters r None [])
            (fun '(s, r') => Some (VStr s, r'))
      | "t"%char :: "r"%char :: "u"%char :: "e"%char :: r => Some (VBool true, r)
      | "f"%char :: "a"%char :: "l"%char :: "s"%char :: "e"%char :: r =>
          Some (VBool false, r)
      | "n"%char :: "u"%char :: "l"%char :: "l"%char :: r => Some (VNull, r)
      | cs' =>
          option_bind (parse_number cs') (fun '(n, r') => Some (VNum n, r'))
      end
  end
with parse_elements (fuel : nat) (cs : list ascii) (acc : list value)
  : option (value * list ascii) :=
  match fuel with
  | O => None
  | S fuel =>
      option_bind (parse_value fuel cs)
        (fun '(v, r) =>
           match skip_whitespace r with
           | ","%char :: r' => parse_elements fuel r' (v :: acc)
           | "]"%char :: r' => Some (VArr (rev (v :: acc)) [], r')
           | _ => None
           end)
  end
with parse_members (fuel : nat) (cs : list ascii) (acc : list (string * value))
  : option (value * list ascii) :=
  match fuel with
  | O => None
  | S fuel =>
      match skip_whitespace cs with
      | "034"%char :: r =>
          option_bind (parse_characters r None [])
            (fun '(k, r1) =>
               match skip_whitespace r1 with
               | ":"%char :: r2 =>
                   option_bind (parse_value fuel r2)
                     (fun '(v, r3) =>
                        match skip_whitespace r3 with
                        | ","%char :: r4 => parse_members fuel r4 (set_prop k v acc)
                        | "}"%char :: r4 => Some (VObj (set_prop k v acc), r4)
                        | _ => None
                        end)
               | _ => None
               end)
      | _ => None
      end
  end.

Definition JSON_parse (text : string) : option value :=
  let cs := list_ascii_of_string text in
  match parse_value (2 * List.length cs + 2) cs with
  | Some (v, r) =>
      match skip_whitespace r with
      | [] => Some v
      | _ => None
      end
  | None => None
  end.

(** ** JSON.stringify of a Credentials object *)

Definition hex_digit (n : Z) : ascii :=
  if n <? 10 then char (48 + n) else char (87 + n).

Definition escape (c : ascii) : string :=
  let s (x : ascii) := String "\" (String x EmptyString) in
  if code c =? 34 then s c
  else if code c =? 92 then s c
  else if code c =? 8 then s "b"%char
  else if code c =? 12 then s "f"%char
  else if code c =? 10 then s "n"%char
  else if code c =? 13 then s "r"%char
  else if code c =? 9 then s "t"%char
  else if code c <? 32 then
    "\u00" ++ String (hex_digit (code c / 16)) (String (hex_digit (code c mod 16)) EmptyString)
  else String c EmptyString.

Fixpoint escape_all (s : string) : string :=
  match s with
  | EmptyString => EmptyString
  | String c r => escape c ++ escape_all r
  end.

Definition dquote : string := String "034" EmptyString.

Definition quote (s : string) : string := dquote ++ escape_all s ++ dquote.

Definition member (k : string) (text : string) : string := quote k ++ ":" ++ text.

(** A Date is serialized by its toJSON: the ISO text, or null when it is
    invalid. *)
Definition Date_toJSON (t : timevalue) : string :=
  match t with
  | TV ms => quote (toISOString ms)
  | NaN => "null"
  end.

Definition JSON_stringify (c : Credentials) : option string :=
  Some ("{" ++ member "accessKeyId" (quote (accessKeyId c))
        ++ "," ++ member "secretAccessKey" (quote (secretAccessKey c))
        ++ match sessionToken c with
           | Some t => "," ++ member "sessionToken" (quote t)
           | None => ""
           end
        ++ match expiration c with
           | Some t => "," ++ member "expiration" (Date_toJSON t)
           | None => ""
           end
        ++ "}").

(** ** The host *)

(** The reference host whose three service operations answer [id],
    [token] and [credentials] whatever the request. *)
Definition host (id : outcome GetIdResponse) (token : outcome GetOpenIdTokenResponse)
    (credentials : outcome Credentials) : Host :=
  Build_Host "cwr_c" JSON_parse JSON_stringify Date_new toISOString
    (fun _ _ => id) (fun _ _ => token) (fun _ _ => credentials).

(** JSON text written with apostrophes in place of double quotes. *)
Fixpoint json (s : string) : string :=
  match s with
  | EmptyString => EmptyString
  | String c r => String (if Ascii.eqb c "'" then "034"%char else c) (json r)
  end.

End ReferenceHost.

(* ===================================================================== *)
(** * Vocabulary of the properties                                        *)
(* ===================================================================== *)

(** Whether the character occurs in the string. *)
Fixpoint mentions (c : ascii) (s : string) : bool :=
  match s with
  | EmptyString => false
  | String c' rest => Ascii.eqb c' c || mentions c rest
  end.

(** The cache misses: the promise of the cookie provider is rejected. *)
Definition CacheMiss {A} (o : outcome A) : Prop :=
  exists reason, o = Rejected reason.

(** The calls made between two worlds. *)
Definition calls_since (w w' : World) : list RemoteCall :=
  drop (List.length (remoteCalls w)) (remoteCalls w').

(** What [JSON.parse(JSON.stringify(credentials))] is for a Credentials
    object: absent fields stay absent, the Date becomes its ISO text (null
    when it is invalid). *)
Definition Credentials_JSON `{Host} (c : Credentials) : value :=
  VObj ([("accessKeyId", VStr (accessKeyId c));
         ("secretAccessKey", VStr (secretAccessKey c))]
        ++ optional_prop "sessionToken" (VStr <$> sessionToken c)
        ++ optional_prop "expiration"
             ((fun t => match t with
                        | TV ms => VStr (Date_toISOString ms)
                        | NaN => VNull
                        end) <$> expiration c)).

Section RemoteSteps.
Context `{Host}.

Definition first_request (this : Authentication) : GetIdRequest :=
  {| IdentityPoolId := identityPoolId (config this) |}.

Definition third_request (this : Authentication) (token : GetOpenIdTokenResponse)
  : AssumeRoleWithWebIdentityRequest :=
  {| RoleArn := guestRoleArn (config this);
     RoleSessionName := "cwr";
     WebIdentityToken := Token token |}.

(** The three services answer [id], [token] and [credentials] to the
    requests the exchange sends them. *)
Definition exchange_succeeds (this : Authentication) (id : GetIdResponse)
    (token : GetOpenIdTokenResponse) (credentials : Credentials) : Prop :=
  cognito_getId (cognitoIdentityClient this) (first_request this) = Fulfilled id
  /\ cognito_getOpenIdToken (cognitoIdentityClient this) id = Fulfilled token
  /\ sts_assumeRoleWithWebIdentity (stsClient this) (third_request this token)
     = Fulfilled credentials.

(** One of the three steps is rejected, the ones before it having
    answered. *)
Definition exchange_fails (this : Authentication) : Prop :=
  (exists e,
      cognito_getId (cognitoIdentityClient this) (first_request this) = Rejected e)
  \/ (exists id e,
         cognito_getId (cognitoIdentityClient this) (first_request this) = Fulfilled id
         /\ cognito_getOpenIdToken (cognitoIdentityClient this) id = Rejected e)
  \/ (exists id token e,
         cognito_getId (cognitoIdentityClient this) (first_request this) = Fulfilled id
         /\ cognito_getOpenIdToken (cognitoIdentityClient this) id = Fulfilled token
         /\ sts_assumeRoleWithWebIdentity (stsClient this) (third_request this token)
            = Rejected e).

(** The calls of a complete exchange, in the order they are made. *)
Definition exchange_calls (this : Authentication) (id : GetIdResponse)
    (token : GetOpenIdTokenResponse) : list RemoteCall :=
  [CallGetId (cognitoIdentityClient this) (first_request this);
   CallGetOpenIdToken (cognitoIdentityClient this) id;
   CallAssumeRoleWithWebIdentity (stsClient this) (third_request this token)].

(** The world after the three calls of a complete exchange. *)
Definition after_exchange (this : Authentication) (id : GetIdResponse)
    (token : GetOpenIdTokenResponse) (w : World) : World :=
  with_call (CallAssumeRoleWithWebIdentity (stsClient this) (third_request this token))
    (with_call (CallGetOpenIdToken (cognitoIdentityClient this) id)
       (with_call (CallGetId (cognitoIdentityClient this) (first_request this)) w)).

(** The cache write of [credentials] throws: in the serialization or in
    [setItem]. *)
Definition cache_write_fails (credentials : Credentials) (w : World) : Prop :=
  JSON_stringify credentials = None
  \/ (exists text e,
         JSON_stringify credentials = Some text
         /\ setItem CRED_KEY text (localStorage w) = Throw e).

(** The record under the storage key is [text], which parses to an object
    whose expiration field reconstructs to the time value [t]. *)
Definition holds_record (w : World) (props : list (string * value)) (t : Z) : Prop :=
  exists text e,
    getItem CRED_KEY (localStorage w) = Normal (Some text)
    /\ JSON_parse text = Some (VObj props)
    /\ lookup_prop "expiration" props = Some e
    /\ Date_new e = TV t.

(** The three ways a stored record is unusable: there is none, it is not
    JSON text, or its expiration reconstructs to a time before the clock. *)
Definition record_absent (w : World) : Prop :=
  getItem CRED_KEY (localStorage w) = Normal None.

Definition record_unparseable (w : World) : Prop :=
  exists text,
    getItem CRED_KEY (localStorage w) = Normal (Some text)
    /\ JSON_parse text = None.

Definition record_expired (w : World) : Prop :=
  exists text v e t,
    getItem CRED_KEY (localStorage w) = Normal (Some text)
    /\ JSON_parse text = Some v
    /\ Get v "expiration" = Normal e
    /\ Date_new e = TV t
    /\ t < clock w.

(** The credential the cookie provider hands out for such a record. *)
Definition cached_credential (props : list (string * value)) (t : Z) : value :=
  VObj (set_prop "expiration" (VDate (TV t) []) props).

End RemoteSteps.

(** Whether a value is a primitive (undefined, null, a boolean, a number or
    a string) rather than an object. *)
Definition is_primitive (v : value) : bool :=
  match v with
  | VObj _ | VArr _ _ | VDate _ _ => false
  | _ => true
  end.

(** The same world when the clock reads [now]. *)
Definition at_time (now : Z) (w : World) : World :=
  {| localStorage := localStorage w; clock := now; remoteCalls := remoteCalls w |}.

(** The same world after [calls] more remote calls. *)
Definition after_calls (calls : list RemoteCall) (w : World) : World :=
  {| localStorage := localStorage w; clock := clock w;
     remoteCalls := (remoteCalls w ++ calls)%list |}.

Section ExchangeOutcomes.
Context `{Host}.

(** The exchange is rejected with [e] at its first, second or third step,
    and [calls] are the calls up to and including the rejected one. *)
Definition exchange_rejected (this : Authentication) (e : thrown)
    (calls : list RemoteCall) : Prop :=
  (cognito_getId (cognitoIdentityClient this) (first_request this) = Rejected e
   /\ calls = [CallGetId (cognitoIdentityClient this) (first_request this)])
  \/ (exists id,
         cognito_getId (cognitoIdentityClient this) (first_request this) = Fulfilled id
         /\ cognito_getOpenIdToken (cognitoIdentityClient this) id = Rejected e
         /\ calls = [CallGetId (cognitoIdentityClient this) (first_request this);
                     CallGetOpenIdToken (cognitoIdentityClient this) id])
  \/ (exists id token,
         cognito_getId (cognitoIdentityClient this) (first_request this) = Fulfilled id
         /\ cognito_getOpenIdToken (cognitoIdentityClient this) id = Fulfilled token
         /\ sts_assumeRoleWithWebIdentity (stsClient this) (third_request this token)
            = Rejected e
         /\ calls = exchange_calls this id token).

(** The calls of an exchange that went as far as its first, second or
    third step: each call is made with what the step before answered. *)
Definition exchange_prefix (this : Authentication) (calls : list RemoteCall) : Prop :=
  calls = [CallGetId (cognitoIdentityClient this) (first_request this)]
  \/ (exists id,
         cognito_getId (cognitoIdentityClient this) (first_request this) = Fulfilled id
         /\ calls = [CallGetId (cognitoIdentityClient this) (first_request this);
                     CallGetOpenIdToken (cognitoIdentityClient this) id])
  \/ (exists id token,
         cognito_getId (cognitoIdentityClient this) (first_request this) = Fulfilled id
         /\ cognito_getOpenIdToken (cognitoIdentityClient this) id = Fulfilled token
         /\ calls = exchange_calls this id token).

End ExchangeOutcomes.

(* ===================================================================== *)
(** * Examples to run                                                     *)
(* ===================================================================== *)

Module Examples.
Import ReferenceHost.

Definition example_config : Config :=
  {| identityPoolId := "us-west-2:27e0d2a1-0000-4000-8000-3b5c9f1d7a42";
     guestRoleArn := "arn:aws:iam::000000000000:role/RUM-Monitor-Unauth" |}.

Definition authentication : Authentication := Authentication_constructor example_config.

(** 2099-01-01T00:00:00Z and 2000-01-01T00:00:00Z *)
Definition year2099 : Z := 4070908800000.
Definition year2000 : Z := 946684800000.

Definition fresh_credentials : Credentials :=
  {| accessKeyId := "AK1"; secretAccessKey := "S1"; sessionToken := Some "T1";
     expiration := Some (TV year2099) |}.

Definition identity : GetIdResponse := {| IdentityId := "us-west-2:guest" |}.
Definition token : GetOpenIdTokenResponse := {| Token := "openid-token" |}.

(** Every service answers. *)
Definition online : Host :=
  host (Fulfilled identity) (Fulfilled token) (Fulfilled fresh_credentials).

(** The third step fails. *)
Definition sts_down : Host :=
  host (Fulfilled identity) (Fulfilled token) (Rejected (ServiceError "AccessDenied")).

(** The first step fails. *)
Definition offline : Host :=
  host (Rejected (ServiceError "NetworkError")) Pending Pending.

Definition storage (records : gmap string string) : Storage :=
  {| items := records; accessible := true; quota := 5000000 |}.

Definition world (st : Storage) (now : Z) : World :=
  {| localStorage := st; clock := now; remoteCalls := [] |}.

(** Nothing stored, on 2024-01-01T00:00:00Z. *)
Definition now : Z := 1704067200000.
Definition empty_world : World := world (storage ∅) now.

Definition stored (text : string) : World :=
  world (storage {["cwr_c" := text]}) now.

Definition valid_record : string :=
  json "{'accessKeyId':'AK1','secretAccessKey':'S1','sessionToken':'T1','expiration':'2099-01-01T00:00:00Z'}".

Definition expired_record : string :=
  json "{'accessKeyId':'AK1','secretAccessKey':'S1','sessionToken':'T1','expiration':'2000-01-01T00:00:00Z'}".

Definition record_without_expiration : string :=
  json "{'accessKeyId':'AK1','secretAccessKey':'S1','sessionToken':'T1'}".

Definition record_with_unreadable_expiration : string :=
  json "{'accessKeyId':'AK1','secretAccessKey':'S1','sessionToken':'T1','expiration':'soon'}".

(** The properties the first three fields of these records parse to, with
    the expiration property given. *)
Definition record_props (expiration : list (string * value)) : list (string * value) :=
  [("accessKeyId", VStr "AK1"); ("secretAccessKey", VStr "S1");
   ("sessionToken", VStr "T1")] ++ expiration.

(** The text [fresh_credentials] is serialized to, and the world in which
    it has been stored. *)
Definition fresh_text : string :=
  Eval vm_compute in default "" (JSON_stringify fresh_credentials).

Definition stored_fresh : World := stored fresh_text.

(** A storage that is full: any write exceeds the quota. *)
Definition full_storage : Storage :=
  {| items := ∅; accessible := true; quota := 0 |}.

(** Storage disabled by the browser. *)
Definition disabled_storage : Storage :=
  {| items := ∅; accessible := false; quota := 5000000 |}.

(** A page with one button, and a plugin configured to listen to clicks on
    it. *)
Definition button : DomEventPlugin.TargetDomEvent :=
  {| DomEventPlugin.self := 0%nat;
     DomEventPlugin.event := "click";
     DomEventPlugin.elementId := Some "button1";
     DomEventPlugin.element := None |}.

Definition page : DomEventPlugin.Page :=
  {| DomEventPlugin.elementsById := {["button1" := 7%nat]};
     DomEventPlugin.listeners := ∅;
     DomEventPlugin.nextFunction := 0%nat |}.

Definition listening : DomEventPlugin.DomEventPlugin * DomEventPlugin.Page :=
  DomEventPlugin.configure [button] (DomEventPlugin.constructor, page).

Definition listeners_on (el : nat)
    (st : DomEventPlugin.DomEventPlugin * DomEventPlugin.Page) : list (string * nat) :=
  default [] (DomEventPlugin.listeners (snd st) !! el).



Definition button_twice : DomEventPlugin.DomEventPlugin :=
  {| DomEventPlugin.recordEvent := None;
     DomEventPlugin.configuration := [button; button];
     DomEventPlugin.pluginId := DomEventPlugin.DOM_EVENT_PLUGIN_ID;
     DomEventPlugin.eventListenerMap := ∅;
     DomEventPlugin.enabled := false |}.

(** A world whose storage is disabled. *)
Definition world_without_storage : World := world disabled_storage now.

End Examples.

(* ===================================================================== *)
(** * Properties of the cookie provider                                   *)
(* ===================================================================== *)

Lemma lookup_set_prop (k : string) (x : value) (props : list (string * value)) :
  lookup_prop k (set_prop k x props) = Some x.
Proof.
  induction props as [|[k' v'] rest IH]; simpl.
  - now rewrite String.eqb_refl.
  - destruct (String.eqb k k') eqn:E; simpl.
    + now rewrite String.eqb_refl.
    + now rewrite E.
Qed.

Lemma lookup_set_prop_ne (k k' : string) (x : value) (props : list (string * value)) :
  k <> k' -> lookup_prop k' (set_prop k x props) = lookup_prop k' props.
Proof.
  intros Hne. induction props as [|[k0 v0] rest IH]; simpl.
  - destruct (String.eqb_spec k' k); congruence.
  - destruct (String.eqb_spec k k0) as [->|Hk]; simpl.
    + destruct (String.eqb_spec k' k0); congruence.
    + now rewrite IH.
Qed.

Lemma Date_lessThan_dates (d : timevalue) (now : Z) :
  Date_lessThan (VDate d []) (VDate (TV now) [])
  = match d with TV t => t <? now | NaN => false end.
Proof. now destruct d. Qed.

(** Runs the executor of the cookie provider down to its statements. *)
Ltac run_executor :=
  unfold AnonymousCookieCredentialsProvider, new_Promise, mbind, executor_bind,
    mret, executor_ret, try_catch, eval, reject, resolve.

Section CookieProvider.
Context `{Host}.

(** The try statement failed: the promise is rejected by the catch clause,
    and the TypeError that follows is lost on a settled promise. *)
Lemma cookie_unreadable (w : World) (e : thrown) :
  read_credentials w = Throw e ->
  AnonymousCookieCredentialsProvider w = (Rejected Undefined, w).
Proof. intros Hread. run_executor. now rewrite Hread. Qed.

(** A record that parses to null, or to another primitive: reading the
    property of null throws, and so does writing the property of a
    primitive. *)
Lemma cookie_primitive (w : World) (v : value) :
  read_credentials w = Normal v ->
  match v with VObj _ | VArr _ _ | VDate _ _ => False | _ => True end ->
  AnonymousCookieCredentialsProvider w = (Rejected TypeError, w).
Proof.
  intros Hread Hprim. run_executor. rewrite Hread.
  destruct v; simpl; try reflexivity; contradiction.
Qed.

(** A record that parses to an object. *)
Lemma cookie_object (w : World) (props : list (string * value)) :
  read_credentials w = Normal (VObj props) ->
  AnonymousCookieCredentialsProvider w
  = (match Date_new (default VUndefined (lookup_prop "expiration" props)) with
     | TV t =>
         if t <? clock w then Rejected Undefined
         else Fulfilled (VObj (set_prop "expiration" (VDate (TV t) []) props))
     | NaN => Fulfilled (VObj (set_prop "expiration" (VDate NaN []) props))
     end, w).
Proof.
  intros Hread. run_executor. rewrite Hread; simpl.
  rewrite lookup_set_prop; simpl. rewrite Date_lessThan_dates.
  destruct (Date_new _) as [|t]; simpl; [reflexivity|].
  now destruct (t <? clock w).
Qed.

Lemma read_credentials_text (w : World) (text : string) :
  getItem CRED_KEY (localStorage w) = Normal (Some text) ->
  read_credentials w
  = match JSON_parse text with Some v => Normal v | None => Throw SyntaxError end.
Proof. intros Hget. unfold read_credentials. now rewrite Hget. Qed.

(** The cookie provider leaves the world as it found it. *)
Lemma cookie_frame (w : World) :
  snd (AnonymousCookieCredentialsProvider w) = w.
Proof. reflexivity. Qed.

(** Its promise is always settled. *)
Lemma cookie_settles (w : World) :
  fst (AnonymousCookieCredentialsProvider w) <> Pending.
Proof.
  run_executor.
  destruct (read_credentials w) as [v|e]; simpl; [|discriminate].
  destruct v; simpl; try discriminate;
    rewrite lookup_set_prop; simpl;
    match goal with |- context [Date_lessThan ?a ?b] =>
      destruct (Date_lessThan a b) end; discriminate.
Qed.

(** A record whose expiration reconstructs to a time before the clock. *)
Lemma cookie_expired (w : World) (v e : value) (t : Z) :
  read_credentials w = Normal v ->
  Get v "expiration" = Normal e ->
  Date_new e = TV t ->
  t < clock w ->
  CacheMiss (fst (AnonymousCookieCredentialsProvider w)).
Proof.
  intros Hread Hget Hdate Hlt.
  assert (Hlt' : (t <? clock w) = true) by now apply Z.ltb_lt.
  run_executor. rewrite Hread; simpl. rewrite Hget.
  destruct v; simpl in *; try discriminate;
    try (eexists; reflexivity);
    rewrite lookup_set_prop; simpl;
    rewrite Hdate, Date_lessThan_dates, Hlt'; eexists; reflexivity.
Qed.

(** A record that parses to an object whose expiration reconstructs to a
    valid time value. *)
Lemma cookie_record (w : World) (props : list (string * value)) (t : Z) :
  holds_record w props t ->
  AnonymousCookieCredentialsProvider w
  = (if t <? clock w then Rejected Undefined
     else Fulfilled (cached_credential props t), w).
Proof.
  intros (text & e & Hget & Hparse & Hexp & Hdate).
  rewrite (cookie_object w props)
    by now rewrite (read_credentials_text _ _ Hget), Hparse.
  rewrite Hexp; simpl. now rewrite Hdate.
Qed.

(** A record that parses to an object whose expiration does not reconstruct
    to a valid time value is handed out, its expiration an invalid Date. *)
Lemma cookie_invalid_expiration (w : World) (text : string)
    (props : list (string * value)) :
  getItem CRED_KEY (localStorage w) = Normal (Some text) ->
  JSON_parse text = Some (VObj props) ->
  Date_new (default VUndefined (lookup_prop "expiration" props)) = NaN ->
  AnonymousCookieCredentialsProvider w
  = (Fulfilled (VObj (set_prop "expiration" (VDate NaN []) props)), w).
Proof.
  intros Hget Hparse Hdate.
  rewrite (cookie_object w props)
    by now rewrite (read_credentials_text _ _ Hget), Hparse.
  now rewrite Hdate.
Qed.

(** C1 (as it holds on the code). When the record under the storage key is
    absent, is not JSON text, or carries an expiration that reconstructs to
    a time before the clock, the promise of the cookie provider is rejected
    (a cache miss, which the chain catches) and the world is left as it
    was: nothing is thrown to the caller. *)
Theorem C1_cache_miss_cases (w : World) :
  JSON_parse "null" = Some VNull ->
  record_absent w \/ record_unparseable w \/ record_expired w ->
  CacheMiss (fst (AnonymousCookieCredentialsProvider w))
  /\ snd (AnonymousCookieCredentialsProvider w) = w.
Proof.
  intros Hnull Hcases. split; [|apply cookie_frame].
  destruct Hcases as [Habsent | [(text & Hget & Hparse)
                                | (text & v & e & t & Hget & Hparse & Hexp & Hdate & Hlt)]].
  - rewrite (cookie_primitive w VNull); [eexists; reflexivity | | exact I].
    unfold read_credentials. rewrite Habsent; simpl. now rewrite Hnull.
  - erewrite cookie_unreadable; [eexists; reflexivity|].
    rewrite (read_credentials_text _ _ Hget), Hparse. reflexivity.
  - apply (cookie_expired w v e t); trivial.
    now rewrite (read_credentials_text _ _ Hget), Hparse.
Qed.

(** C3 (as it holds on the code). For a stored record whose expiration
    reconstructs to the time value [t], the cookie provider hands out the
    credential exactly when [t] is not before the clock, and misses exactly
    when [t] is before it. *)
Theorem C3_fresh_iff_not_before_now (w : World) (props : list (string * value)) (t : Z) :
  holds_record w props t ->
  (clock w <= t <->
   AnonymousCookieCredentialsProvider w = (Fulfilled (cached_credential props t), w))
  /\ (t < clock w <-> CacheMiss (fst (AnonymousCookieCredentialsProvider w))).
Proof.
  intros Hrecord. rewrite (cookie_record w props t Hrecord).
  unfold CacheMiss.
  destruct (Z.ltb_spec t (clock w)) as [Hlt | Hge]; simpl.
  - split; split; intros Hx; try lia; try discriminate.
    exists Undefined; reflexivity.
  - split; split; intros Hx; try lia; try reflexivity.
    destruct Hx as [reason Hx]; discriminate.
Qed.

End CookieProvider.

(* ===================================================================== *)
(** * Properties of the Cognito provider and of the chain                 *)
(* ===================================================================== *)

Lemma calls_since_app (w w' : World) (new : list RemoteCall) :
  remoteCalls w' = (remoteCalls w ++ new)%list -> calls_since w w' = new.
Proof. unfold calls_since. intros ->. apply drop_app_length. Qed.

Section Chain.
Context `{Host}.

Lemma after_exchange_calls this id token w :
  remoteCalls (after_exchange this id token w)
  = (remoteCalls w ++ exchange_calls this id token)%list.
Proof.
  unfold after_exchange, exchange_calls; simpl.
  now rewrite <- !app_assoc.
Qed.

Lemma store_credentials_result (credentials : Credentials) (w : World) :
  fst (store_credentials credentials w) = Normal credentials
  /\ remoteCalls (snd (store_credentials credentials w)) = remoteCalls w
  /\ clock (snd (store_credentials credentials w)) = clock w.
Proof.
  unfold store_credentials; simpl.
  destruct (JSON_stringify credentials) as [text|]; [|easy].
  destruct (setItem CRED_KEY text (localStorage w)); easy.
Qed.

Lemma store_credentials_failed (credentials : Credentials) (w : World) :
  cache_write_fails credentials w ->
  store_credentials credentials w = (Normal credentials, w).
Proof.
  unfold store_credentials.
  intros [Hnone | (text & e & Htext & Hset)].
  - now rewrite Hnone.
  - now rewrite Htext, Hset.
Qed.

(** The Cognito provider when every step answers. *)
Lemma cognito_fulfilled this w id token credentials :
  exchange_succeeds this id token credentials ->
  AnonymousCognitoCredentialsProvider this w
  = (Fulfilled credentials,
     snd (store_credentials credentials (after_exchange this id token w))).
Proof.
  intros (H1 & H2 & H3).
  unfold first_request in H1. unfold third_request in H3.
  unfold AnonymousCognitoCredentialsProvider, then_, getId, getOpenIdToken,
    assumeRoleWithWebIdentity, callback.
  rewrite H1, H2, H3.
  destruct (store_credentials_result credentials (after_exchange this id token w))
    as (Hfst & _).
  unfold after_exchange, first_request, third_request in *.
  destruct (store_credentials credentials _) as [c w'] eqn:E.
  simpl in Hfst. now subst c.
Qed.

(** The Cognito provider when a step is rejected: nothing is written. *)
Lemma cognito_rejected this w :
  exchange_fails this ->
  exists e w',
    AnonymousCognitoCredentialsProvider this w = (Rejected e, w')
    /\ localStorage w' = localStorage w.
Proof.
  unfold exchange_fails, first_request, third_request.
  unfold AnonymousCognitoCredentialsProvider, then_, getId, getOpenIdToken,
    assumeRoleWithWebIdentity.
  intros [(e & H1) | [(id & e & H1 & H2) | (id & token & e & H1 & H2 & H3)]].
  - rewrite H1. eexists _, _; split; reflexivity.
  - rewrite H1, H2. eexists _, _; split; reflexivity.
  - rewrite H1, H2, H3. eexists _, _; split; reflexivity.
Qed.

(** On a cache miss the chain is the Cognito provider, run in the same
    world. *)
Lemma chain_on_miss this w :
  CacheMiss (fst (AnonymousCookieCredentialsProvider w)) ->
  ChainAnonymousCredentialsProvider this w
  = then_ (AnonymousCognitoCredentialsProvider this)
      (fun credentials w => (Fulfilled (Credentials_value credentials), w)) w.
Proof.
  intros (reason & Hmiss).
  unfold ChainAnonymousCredentialsProvider, catch_.
  pose proof (cookie_frame w) as Hframe.
  destruct (AnonymousCookieCredentialsProvider w) as [o w0].
  simpl in *. now subst.
Qed.

(** On a cache hit the chain is the cookie provider. *)
Lemma chain_on_hit this w credentials :
  fst (AnonymousCookieCredentialsProvider w) = Fulfilled credentials ->
  ChainAnonymousCredentialsProvider this w = (Fulfilled credentials, w).
Proof.
  intros Hhit.
  unfold ChainAnonymousCredentialsProvider, catch_.
  pose proof (cookie_frame w) as Hframe.
  destruct (AnonymousCookieCredentialsProvider w) as [o w0].
  simpl in *. now subst.
Qed.

(** C2. When the cache misses and the three services answer, the chain
    calls getId, then getOpenIdToken on the response of getId, then
    assumeRoleWithWebIdentity with the token of the second response: these
    three calls, in this order and no other; and it is fulfilled with the
    credentials of the third response. *)
Theorem C2_exchange_runs_in_order this w id token credentials :
  CacheMiss (fst (AnonymousCookieCredentialsProvider w)) ->
  exchange_succeeds this id token credentials ->
  fst (ChainAnonymousCredentialsProvider this w) = Fulfilled (Credentials_value credentials)
  /\ calls_since w (snd (ChainAnonymousCredentialsProvider this w))
     = [CallGetId (cognitoIdentityClient this)
          {| IdentityPoolId := identityPoolId (config this) |};
        CallGetOpenIdToken (cognitoIdentityClient this) id;
        CallAssumeRoleWithWebIdentity (stsClient this)
          {| RoleArn := guestRoleArn (config this);
             RoleSessionName := "cwr";
             WebIdentityToken := Token token |}].
Proof.
  intros Hmiss Hok.
  rewrite (chain_on_miss this w Hmiss). unfold then_.
  rewrite (cognito_fulfilled this w id token credentials Hok).
  split; [reflexivity|]. cbn [fst snd].
  apply calls_since_app.
  destruct (store_credentials_result credentials (after_exchange this id token w))
    as (_ & Hcalls & _).
  rewrite Hcalls. apply after_exchange_calls.
Qed.

(** C4. When the storage holds a record whose expiration reconstructs to a
    time after the clock, the chain is fulfilled with that record (its
    expiration a Date again) and the world is as before: no remote call is
    made. *)
Theorem C4_cache_hit_makes_no_remote_call this w props t :
  holds_record w props t ->
  clock w < t ->
  ChainAnonymousCredentialsProvider this w = (Fulfilled (cached_credential props t), w)
  /\ calls_since w (snd (ChainAnonymousCredentialsProvider this w)) = [].
Proof.
  intros Hrecord Hfresh.
  assert (Hchain : ChainAnonymousCredentialsProvider this w
                   = (Fulfilled (cached_credential props t), w)).
  { apply chain_on_hit.
    rewrite (cookie_record w props t Hrecord).
    destruct (Z.ltb_spec t (clock w)); [lia | reflexivity]. }
  split; [exact Hchain|].
  rewrite Hchain. apply calls_since_app. simpl. now rewrite app_nil_r.
Qed.

(** C5. When the cache misses and one of the three steps is rejected, the
    chain is rejected and localStorage is what it was. *)
Theorem C5_failed_exchange_writes_nothing this w :
  CacheMiss (fst (AnonymousCookieCredentialsProvider w)) ->
  exchange_fails this ->
  (exists reason, fst (ChainAnonymousCredentialsProvider this w) = Rejected reason)
  /\ localStorage (snd (ChainAnonymousCredentialsProvider this w)) = localStorage w.
Proof.
  intros Hmiss Hfail.
  rewrite (chain_on_miss this w Hmiss). unfold then_.
  destruct (cognito_rejected this w Hfail) as (e & w' & Hrun & Hstore).
  rewrite Hrun; simpl. split; [now exists e | exact Hstore].
Qed.

(** C7. When the three services answer and the cache write throws, the
    Cognito provider is still fulfilled with the credentials of the third
    response, and so is the chain that fell through to it; localStorage
    is what it was. *)
Theorem C7_failed_cache_write_is_swallowed this w id token credentials :
  exchange_succeeds this id token credentials ->
  cache_write_fails credentials w ->
  (fst (AnonymousCognitoCredentialsProvider this w) = Fulfilled credentials
   /\ localStorage (snd (AnonymousCognitoCredentialsProvider this w)) = localStorage w)
  /\ (CacheMiss (fst (AnonymousCookieCredentialsProvider w)) ->
      fst (ChainAnonymousCredentialsProvider this w)
      = Fulfilled (Credentials_value credentials)).
Proof.
  intros Hok Hwrite.
  assert (Hrun : AnonymousCognitoCredentialsProvider this w
                 = (Fulfilled credentials, after_exchange this id token w)).
  { rewrite (cognito_fulfilled this w id token credentials Hok).
    rewrite store_credentials_failed; [reflexivity|].
    exact Hwrite. }
  split.
  - rewrite Hrun. split; reflexivity.
  - intros Hmiss. rewrite (chain_on_miss this w Hmiss). unfold then_.
    now rewrite Hrun.
Qed.

(** Every call the Cognito provider makes is one of the three of the
    exchange. *)
Lemma cognito_calls this w :
  exists new,
    remoteCalls (snd (AnonymousCognitoCredentialsProvider this w))
    = (remoteCalls w ++ new)%list
    /\ forall client request,
         In (CallAssumeRoleWithWebIdentity client request) new ->
         client = stsClient this
         /\ RoleSessionName request = "cwr"
         /\ RoleArn request = guestRoleArn (config this).
Proof.
  unfold AnonymousCognitoCredentialsProvider, then_, getId, getOpenIdToken,
    assumeRoleWithWebIdentity, callback.
  destruct (cognito_getId _ _) as [id| |]; simpl.
  2,3: eexists; split; [reflexivity|]; intros ? ? [[=]|[]].
  destruct (cognito_getOpenIdToken _ _) as [token| |]; simpl.
  2,3: eexists; split; [now rewrite <- app_assoc|]; intros ? ? [[=]|[[=]|[]]].
  assert (Hin : forall client request,
             In (CallAssumeRoleWithWebIdentity client request)
                (exchange_calls this id token) ->
             client = stsClient this
             /\ RoleSessionName request = "cwr"
             /\ RoleArn request = guestRoleArn (config this)).
  { intros client request [[=]|[[=]|[[= <- <-]|[]]]]. easy. }
  destruct (sts_assumeRoleWithWebIdentity _ _) as [credentials| |]; simpl.
  2,3: exists (exchange_calls this id token); split;
    [now rewrite <- !app_assoc | exact Hin].
  exists (exchange_calls this id token). split; [|exact Hin].
  destruct (JSON_stringify credentials) as [text|];
    [destruct (setItem CRED_KEY text (localStorage w))|];
    simpl; now rewrite <- !app_assoc.
Qed.

(** C9. Whatever the services answer, every assumeRoleWithWebIdentity call
    made by the Cognito provider, and so by the chain, is made on the STS
    client with the role session name cwr and the role ARN of the
    configuration. *)
Theorem C9_role_session_name_and_arn this w client request :
  (In (CallAssumeRoleWithWebIdentity client request)
      (calls_since w (snd (AnonymousCognitoCredentialsProvider this w)))
   \/ In (CallAssumeRoleWithWebIdentity client request)
        (calls_since w (snd (ChainAnonymousCredentialsProvider this w)))) ->
  client = stsClient this
  /\ RoleSessionName request = "cwr"
  /\ RoleArn request = guestRoleArn (config this).
Proof.
  destruct (cognito_calls this w) as (new & Hcalls & Hnew).
  intros [Hin | Hin].
  - rewrite (calls_since_app _ _ new Hcalls) in Hin. now apply Hnew.
  - unfold ChainAnonymousCredentialsProvider, catch_ in Hin.
    pose proof (cookie_frame w) as Hframe.
    destruct (AnonymousCookieCredentialsProvider w) as [o w0].
    simpl in Hframe; subst w0.
    destruct o; cbn [snd] in Hin.
    + rewrite (calls_since_app w w []) in Hin by now rewrite app_nil_r.
      destruct Hin.
    + unfold then_ in Hin.
      destruct (AnonymousCognitoCredentialsProvider this w) as [o' w'].
      cbn [snd] in Hcalls.
      destruct o'; cbn [snd] in Hin;
        rewrite (calls_since_app _ _ new Hcalls) in Hin; now apply Hnew.
    + rewrite (calls_since_app w w []) in Hin by now rewrite app_nil_r.
      destruct Hin.
Qed.

End Chain.

(* ===================================================================== *)
(** * Store, then load                                                    *)
(* ===================================================================== *)

Section RoundTrip.
Context `{Host}.

(** A write that succeeds leaves the text under the key, in a storage that
    can be read. *)
Lemma getItem_setItem (k text : string) (st st' : Storage) :
  setItem k text st = Normal st' ->
  getItem k st' = Normal (Some text).
Proof.
  unfold setItem, getItem.
  destruct (accessible st); simpl; [|discriminate].
  destruct (_ <? _)%N; [discriminate|].
  intros [= <-]; simpl. now rewrite lookup_insert_eq.
Qed.

(** What the parsed record of a credential with a valid expiration holds
    under the expiration key. *)
Lemma Credentials_JSON_expiration (credentials : Credentials) (t : Z) :
  expiration credentials = Some (TV t) ->
  exists props,
    Credentials_JSON credentials = VObj props
    /\ lookup_prop "expiration" props = Some (VStr (Date_toISOString t))
    /\ VObj (set_prop "expiration" (VDate (TV t) []) props)
       = Credentials_value credentials.
Proof.
  intros Hexp. unfold Credentials_JSON, Credentials_value. rewrite Hexp.
  eexists; split; [reflexivity|].
  destruct (sessionToken credentials); simpl; split; reflexivity.
Qed.

(** C6. A credential whose cache write succeeds, read back by the cookie
    provider at a time before its expiration, is handed out equal to what
    was stored: the same accessKeyId, secretAccessKey and sessionToken, and
    an expiration that is the same Date again. The host is asked for what
    every ECMAScript host gives: the text of the record parses back to its
    JSON form, and the ISO text of the expiration reads back as the same
    time value. *)
Theorem C6_store_then_load_round_trips
    (credentials : Credentials) (t : Z) (text : string) (w later : World) :
  expiration credentials = Some (TV t) ->
  JSON_stringify credentials = Some text ->
  JSON_parse text = Some (Credentials_JSON credentials) ->
  Date_new (VStr (Date_toISOString t)) = TV t ->
  (exists st, setItem CRED_KEY text (localStorage w) = Normal st) ->
  localStorage later = localStorage (snd (store_credentials credentials w)) ->
  clock later < t ->
  AnonymousCookieCredentialsProvider later
  = (Fulfilled (Credentials_value credentials), later).
Proof.
  intros Hexp Htext Hparse Hdate (st & Hset) Hlater Hfresh.
  unfold store_credentials in Hlater. rewrite Htext, Hset in Hlater.
  simpl in Hlater.
  assert (Hget : getItem CRED_KEY (localStorage later) = Normal (Some text)).
  { rewrite Hlater. now apply (getItem_setItem _ _ (localStorage w)). }
  destruct (Credentials_JSON_expiration credentials t Hexp)
    as (props & Hprops & Hlookup & Hvalue).
  rewrite (cookie_record later props t).
  - destruct (Z.ltb_spec t (clock later)); [lia|].
    unfold cached_credential. now rewrite Hvalue.
  - exists text, (VStr (Date_toISOString t)).
    rewrite Hparse, Hprops. easy.
Qed.

End RoundTrip.

(* ===================================================================== *)
(** * The region of the clients                                           *)
(* ===================================================================== *)

Lemma split_never_empty (sep : ascii) (s : string) : split sep s <> [].
Proof.
  induction s as [|c s IH]; simpl; [discriminate|].
  destruct (Ascii.eqb c sep); [discriminate|].
  destruct (split sep s); [contradiction | discriminate].
Qed.

Lemma split_first_segment (r rest : string) :
  mentions ":" r = false ->
  split ":" (r ++ String ":" rest) = r :: split ":" rest.
Proof.
  induction r as [|c r IH]; simpl; intros Hr.
  - reflexivity.
  - apply orb_false_iff in Hr as [Hc Hr].
    rewrite Hc, (IH Hr). reflexivity.
Qed.

(** C8. When the identity-pool identifier is a region, a colon and the
    rest, the colon being the first one, both the STS client and the
    Cognito client are constructed with that region. *)
Theorem C8_region_is_first_segment (config : Config) (r uuid : string) :
  identityPoolId config = r ++ ":" ++ uuid ->
  mentions ":" r = false ->
  region (sts_config (stsClient (Authentication_constructor config))) = r
  /\ region (cognito_config (cognitoIdentityClient (Authentication_constructor config))) = r.
Proof.
  intros Hid Hr. unfold Authentication_constructor; simpl.
  rewrite Hid.
  change (r ++ ":" ++ uuid) with (r ++ String ":" uuid).
  rewrite (split_first_segment r uuid Hr). split; reflexivity.
Qed.

(* ===================================================================== *)
(** * DomEventPlugin: enable and disable                                  *)
(* ===================================================================== *)

Lemma enable_when_enabled (st : DomEventPlugin.DomEventPlugin * DomEventPlugin.Page) :
  DomEventPlugin.enabled (fst st) = true -> DomEventPlugin.enable st = st.
Proof. intros Hon. unfold DomEventPlugin.enable. now rewrite Hon. Qed.

Lemma disable_when_disabled (st : DomEventPlugin.DomEventPlugin * DomEventPlugin.Page) :
  DomEventPlugin.enabled (fst st) = false -> DomEventPlugin.disable st = st.
Proof. intros Hoff. unfold DomEventPlugin.disable. now rewrite Hoff. Qed.

Lemma enable_leaves_enabled (st : DomEventPlugin.DomEventPlugin * DomEventPlugin.Page) :
  DomEventPlugin.enabled (fst (DomEventPlugin.enable st)) = true.
Proof.
  unfold DomEventPlugin.enable.
  destruct (DomEventPlugin.enabled (fst st)) eqn:Hon; [exact Hon|].
  now destruct (DomEventPlugin.addListeners _ st).
Qed.

Lemma disable_leaves_disabled (st : DomEventPlugin.DomEventPlugin * DomEventPlugin.Page) :
  DomEventPlugin.enabled (fst (DomEventPlugin.disable st)) = false.
Proof.
  unfold DomEventPlugin.disable.
  destruct (DomEventPlugin.enabled (fst st)) eqn:Hon; simpl; [|exact Hon].
  now destruct (DomEventPlugin.removeListeners _ st).
Qed.

(** C10. The plugin is constructed enabled; enable on an enabled plugin and
    disable on a disabled one return the plugin and the page as they are
    (no listener is added or removed, no function object is made); and a
    second enable, or a second disable, changes nothing after the first. *)
Theorem C10_enable_disable_idempotent :
  DomEventPlugin.enabled DomEventPlugin.constructor = true
  /\ (forall pg,
         DomEventPlugin.enable (DomEventPlugin.constructor, pg)
         = (DomEventPlugin.constructor, pg))
  /\ (forall this pg,
         DomEventPlugin.enabled this = true ->
         DomEventPlugin.enable (this, pg) = (this, pg))
  /\ (forall this pg,
         DomEventPlugin.enabled this = false ->
         DomEventPlugin.disable (this, pg) = (this, pg))
  /\ (forall st, DomEventPlugin.enable (DomEventPlugin.enable st) = DomEventPlugin.enable st)
  /\ (forall st, DomEventPlugin.disable (DomEventPlugin.disable st) = DomEventPlugin.disable st).
Proof.
  repeat split.
  - intros this pg Hon. now apply enable_when_enabled.
  - intros this pg Hoff. now apply disable_when_disabled.
  - intros st. apply enable_when_enabled, enable_leaves_enabled.
  - intros st. apply disable_when_disabled, disable_leaves_disabled.
Qed.

(** A run: configuring the enabled plugin registers one click listener on
    the button; enable then changes nothing; disable removes the listener,
    and a second disable changes nothing; enable registers one listener
    again (a new function object), and a second enable changes nothing. *)
Example plugin_run :
  Examples.listeners_on 7 Examples.listening = [("click", 0%nat)]
  /\ DomEventPlugin.enable Examples.listening = Examples.listening
  /\ Examples.listeners_on 7 (DomEventPlugin.disable Examples.listening) = []
  /\ DomEventPlugin.disable (DomEventPlugin.disable Examples.listening)
     = DomEventPlugin.disable Examples.listening
  /\ Examples.listeners_on 7
       (DomEventPlugin.enable (DomEventPlugin.disable Examples.listening))
     = [("click", 1%nat)]
  /\ DomEventPlugin.enable
       (DomEventPlugin.enable (DomEventPlugin.disable Examples.listening))
     = DomEventPlugin.enable (DomEventPlugin.disable Examples.listening).
Proof. repeat split; vm_compute; reflexivity. Qed.

(* ===================================================================== *)
(** * The properties at work on the reference host                        *)
(* ===================================================================== *)

Section Runs.
Import Examples.

(** C1 on a record that expired in 2000, read in 2024. *)
Lemma C1_cache_miss_cases_witness :
  CacheMiss (fst (@AnonymousCookieCredentialsProvider online (stored expired_record)))
  /\ snd (@AnonymousCookieCredentialsProvider online (stored expired_record))
     = stored expired_record.
Proof.
  apply (@C1_cache_miss_cases online (stored expired_record)).
  - reflexivity.
  - right; right.
    exists expired_record, (VObj (record_props [("expiration", VStr "2000-01-01T00:00:00Z")])),
      (VStr "2000-01-01T00:00:00Z"), year2000.
    repeat split; vm_compute; reflexivity.
Defined.

(** C1 as the specification words it fails on a record without an
    expiration field: the record parses to an object that has no such
    property, the Date made of undefined is invalid, and the cookie
    provider fulfils its promise with the record instead of missing. *)
Lemma C1_counterexample_record_without_expiration :
  @JSON_parse online record_without_expiration = Some (VObj (record_props []))
  /\ lookup_prop "expiration" (record_props []) = None
  /\ @Date_new online VUndefined = NaN
  /\ fst (@AnonymousCookieCredentialsProvider online (stored record_without_expiration))
     = Fulfilled (VObj (record_props [("expiration", VDate NaN [])]))
  /\ ~ CacheMiss
        (fst (@AnonymousCookieCredentialsProvider online (stored record_without_expiration))).
Proof.
  repeat split; try (vm_compute; reflexivity).
  intros (reason & Hmiss). vm_compute in Hmiss. discriminate.
Qed.

(** C3 on the record that expires in 2099, read in 2024. *)
Lemma C3_fresh_iff_not_before_now_witness :
  (clock (stored valid_record) <= year2099 <->
   @AnonymousCookieCredentialsProvider online (stored valid_record)
   = (Fulfilled (cached_credential (record_props [("expiration", VStr "2099-01-01T00:00:00Z")])
                   year2099),
      stored valid_record))
  /\ (year2099 < clock (stored valid_record) <->
      CacheMiss (fst (@AnonymousCookieCredentialsProvider online (stored valid_record)))).
Proof.
  apply (@C3_fresh_iff_not_before_now online).
  exists valid_record, (VStr "2099-01-01T00:00:00Z").
  repeat split; vm_compute; reflexivity.
Defined.

(** C3 as the specification words it fails when the clock reads exactly the
    expiration: the expiration is not strictly after the clock, and yet the
    credential is handed out. *)
Lemma C3_counterexample_expiration_equal_to_now :
  @holds_record online (world (storage {["cwr_c" := valid_record]}) year2099)
    (record_props [("expiration", VStr "2099-01-01T00:00:00Z")]) year2099
  /\ ~ clock (world (storage {["cwr_c" := valid_record]}) year2099) < year2099
  /\ fst (@AnonymousCookieCredentialsProvider online
            (world (storage {["cwr_c" := valid_record]}) year2099))
     = Fulfilled (VObj (record_props [("expiration", VDate (TV year2099) [])]))
  /\ ~ CacheMiss
        (fst (@AnonymousCookieCredentialsProvider online
                (world (storage {["cwr_c" := valid_record]}) year2099))).
Proof.
  split; [|split; [|split]].
  - exists valid_record, (VStr "2099-01-01T00:00:00Z").
    repeat split; vm_compute; reflexivity.
  - simpl. unfold year2099. lia.
  - vm_compute; reflexivity.
  - intros (reason & Hmiss). vm_compute in Hmiss. discriminate.
Qed.

(** C2 on an empty storage with every service answering. *)
Lemma C2_exchange_runs_in_order_witness :
  fst (@ChainAnonymousCredentialsProvider online authentication empty_world)
  = Fulfilled (Credentials_value fresh_credentials)
  /\ calls_since empty_world
       (snd (@ChainAnonymousCredentialsProvider online authentication empty_world))
     = [CallGetId (cognitoIdentityClient authentication)
          {| IdentityPoolId := identityPoolId (config authentication) |};
        CallGetOpenIdToken (cognitoIdentityClient authentication) identity;
        CallAssumeRoleWithWebIdentity (stsClient authentication)
          {| RoleArn := guestRoleArn (config authentication);
             RoleSessionName := "cwr";
             WebIdentityToken := Token token |}].
Proof.
  apply (@C2_exchange_runs_in_order online authentication empty_world
           identity token fresh_credentials).
  - exists TypeError. vm_compute; reflexivity.
  - repeat split; reflexivity.
Defined.

(** C4 on the record that expires in 2099, read in 2024. *)
Lemma C4_cache_hit_makes_no_remote_call_witness :
  @ChainAnonymousCredentialsProvider online authentication (stored valid_record)
  = (Fulfilled (cached_credential (record_props [("expiration", VStr "2099-01-01T00:00:00Z")])
                  year2099),
     stored valid_record)
  /\ calls_since (stored valid_record)
       (snd (@ChainAnonymousCredentialsProvider online authentication (stored valid_record)))
     = [].
Proof.
  apply (@C4_cache_hit_makes_no_remote_call online authentication (stored valid_record)).
  - exists valid_record, (VStr "2099-01-01T00:00:00Z").
    repeat split; vm_compute; reflexivity.
  - vm_compute; reflexivity.
Defined.

(** C5 on an empty storage, with the first step failing and with the third
    step failing. *)
Lemma C5_failed_exchange_writes_nothing_witness :
  ((exists reason,
       fst (@ChainAnonymousCredentialsProvider offline authentication empty_world)
       = Rejected reason)
   /\ localStorage (snd (@ChainAnonymousCredentialsProvider offline authentication empty_world))
      = localStorage empty_world)
  /\ ((exists reason,
         fst (@ChainAnonymousCredentialsProvider sts_down authentication empty_world)
         = Rejected reason)
      /\ localStorage
           (snd (@ChainAnonymousCredentialsProvider sts_down authentication empty_world))
         = localStorage empty_world).
Proof.
  split.
  - apply (@C5_failed_exchange_writes_nothing offline authentication empty_world).
    + exists TypeError. vm_compute; reflexivity.
    + left. exists (ServiceError "NetworkError"). reflexivity.
  - apply (@C5_failed_exchange_writes_nothing sts_down authentication empty_world).
    + exists TypeError. vm_compute; reflexivity.
    + right; right.
      exists identity, token, (ServiceError "AccessDenied").
      repeat split; reflexivity.
Defined.

(** C6 on [fresh_credentials], stored into an empty storage and read back
    in 2024. *)
Lemma C6_store_then_load_round_trips_witness :
  @AnonymousCookieCredentialsProvider online stored_fresh
  = (Fulfilled (Credentials_value fresh_credentials), stored_fresh).
Proof.
  apply (@C6_store_then_load_round_trips online fresh_credentials year2099
           fresh_text empty_world stored_fresh).
  - reflexivity.
  - vm_compute; reflexivity.
  - vm_compute; reflexivity.
  - vm_compute; reflexivity.
  - exists (storage {["cwr_c" := fresh_text]}). vm_compute; reflexivity.
  - vm_compute; reflexivity.
  - vm_compute; reflexivity.
Defined.

(** C7 on a storage that is full. *)
Lemma C7_failed_cache_write_is_swallowed_witness :
  (fst (@AnonymousCognitoCredentialsProvider online authentication (world full_storage now))
   = Fulfilled fresh_credentials
   /\ localStorage
        (snd (@AnonymousCognitoCredentialsProvider online authentication
                (world full_storage now)))
      = localStorage (world full_storage now))
  /\ (CacheMiss (fst (@AnonymousCookieCredentialsProvider online (world full_storage now))) ->
      fst (@ChainAnonymousCredentialsProvider online authentication (world full_storage now))
      = Fulfilled (Credentials_value fresh_credentials)).
Proof.
  apply (@C7_failed_cache_write_is_swallowed online authentication
           (world full_storage now) identity token fresh_credentials).
  - repeat split; reflexivity.
  - right. exists fresh_text, QuotaExceededError.
    split; vm_compute; reflexivity.
Defined.

(** C8 on the identity pool of the example configuration. *)
Lemma C8_region_is_first_segment_witness :
  region (sts_config (stsClient (Authentication_constructor example_config))) = "us-west-2"
  /\ region (cognito_config (cognitoIdentityClient (Authentication_constructor example_config)))
     = "us-west-2".
Proof.
  apply (C8_region_is_first_segment example_config "us-west-2"
           "27e0d2a1-0000-4000-8000-3b5c9f1d7a42"); reflexivity.
Defined.

(** C9 on the third call of a complete exchange. *)
Lemma C9_role_session_name_and_arn_witness :
  In (CallAssumeRoleWithWebIdentity (stsClient authentication)
        (third_request authentication token))
     (calls_since empty_world
        (snd (@AnonymousCognitoCredentialsProvider online authentication empty_world)))
  /\ stsClient authentication = stsClient authentication
  /\ RoleSessionName (third_request authentication token) = "cwr"
  /\ RoleArn (third_request authentication token) = guestRoleArn (config authentication).
Proof.
  assert (Hcall : In (CallAssumeRoleWithWebIdentity (stsClient authentication)
                        (third_request authentication token))
                     (calls_since empty_world
                        (snd (@AnonymousCognitoCredentialsProvider online authentication
                                empty_world)))).
  { vm_compute. right; right; left. reflexivity. }
  split; [exact Hcall|].
  apply (@C9_role_session_name_and_arn online authentication empty_world
           (stsClient authentication) (third_request authentication token)).
  left. exact Hcall.
Defined.

End Runs.

(* ===================================================================== *)
(** * Further properties of the providers                                 *)
(* ===================================================================== *)

Section CookieCredential.
Context `{Host}.

Lemma Get_Put_same (v c x : value) (k : string) :
  Put v k x = Normal c -> Get c k = Normal x.
Proof.
  destruct v; simpl; try discriminate; intros [= <-]; simpl;
    now rewrite lookup_set_prop.
Qed.

Lemma Get_Put_other (v c x : value) (k k' : string) :
  Put v k x = Normal c -> k <> k' -> Get c k' = Get v k'.
Proof.
  destruct v; simpl; try discriminate; intros [= <-] Hne; simpl;
    now rewrite lookup_set_prop_ne.
Qed.

Lemma Put_object (v c x : value) (k : string) :
  Put v k x = Normal c -> is_primitive v = false.
Proof. destruct v; simpl; try discriminate; reflexivity. Qed.

(** X1. Whatever the storage holds, a credential the cookie provider hands
    out is the stored record, parsed, with one change: its expiration is a
    Date object, made of what the record had there. That Date is never a
    valid time before the clock; every other property reads as it does on
    the parsed record; and the record was an object, not a primitive. *)
Theorem cookie_credential_is_the_record_with_a_date (w : World) (c : value) :
  fst (AnonymousCookieCredentialsProvider w) = Fulfilled c ->
  exists item v serialized,
    getItem CRED_KEY (localStorage w) = Normal item
    /\ JSON_parse (ToString_item item) = Some v
    /\ is_primitive v = false
    /\ Get v "expiration" = Normal serialized
    /\ Get c "expiration" = Normal (VDate (Date_new serialized) [])
    /\ (forall t, Date_new serialized = TV t -> clock w <= t)
    /\ (forall k, k <> "expiration" -> Get c k = Get v k).
Proof.
  run_executor. unfold read_credentials.
  destruct (getItem CRED_KEY (localStorage w)) as [item|e] eqn:Hitem;
    simpl; [|discriminate].
  destruct (JSON_parse (ToString_item item)) as [v|] eqn:Hparse;
    simpl; [|discriminate].
  destruct (Get v "expiration") as [serialized|e] eqn:Hget; simpl; [|discriminate].
  destruct (Put v "expiration" (VDate (Date_new serialized) [])) as [c'|e] eqn:Hput;
    simpl; [|discriminate].
  rewrite (Get_Put_same _ _ _ _ Hput); simpl.
  rewrite Date_lessThan_dates.
  intros Hc.
  assert (Hc' : c' = c
                /\ forall t, Date_new serialized = TV t -> clock w <= t).
  { destruct (Date_new serialized) as [|t].
    - simpl in Hc. split; [congruence | discriminate].
    - destruct (Z.ltb_spec t (clock w)) as [Hlt|Hge]; simpl in Hc; [discriminate|].
      split; [congruence | now intros t' [= <-]]. }
  destruct Hc' as [-> Hfresh].
  exists item, v, serialized.
  split; [reflexivity|]. split; [exact Hparse|].
  split; [exact (Put_object _ _ _ _ Hput)|].
  split; [exact Hget|].
  split; [exact (Get_Put_same _ _ _ _ Hput)|].
  split; [exact Hfresh|].
  intros k Hk. apply (Get_Put_other _ _ _ _ _ Hput). congruence.
Qed.

(** X2. Two more ways to miss: a storage that throws on access (the catch
    clause rejects), and a record that is JSON but not an object, such as
    null, true, 5 or a quoted text (the assignment of its expiration
    throws a TypeError, which rejects the promise). *)
Theorem cookie_misses_without_storage_or_object (w : World) :
  accessible (localStorage w) = false
  \/ (exists item v,
         getItem CRED_KEY (localStorage w) = Normal item
         /\ JSON_parse (ToString_item item) = Some v
         /\ is_primitive v = true) ->
  AnonymousCookieCredentialsProvider w
  = (Rejected (if accessible (localStorage w) then TypeError else Undefined), w).
Proof.
  intros [Hoff | (item & v & Hget & Hparse & Hprim)].
  - rewrite Hoff. apply (cookie_unreadable w SecurityError).
    unfold read_credentials, getItem. now rewrite Hoff.
  - assert (Hon : accessible (localStorage w) = true).
    { unfold getItem in Hget. now destruct (accessible (localStorage w)). }
    rewrite Hon. apply (cookie_primitive w v).
    + unfold read_credentials. now rewrite Hget, Hparse.
    + now destruct v.
Qed.

End CookieCredential.

Section ChainRuns.
Context `{Host}.

Lemma cognito_stops (this : Authentication) (w : World) (e : thrown)
    (calls : list RemoteCall) :
  exchange_rejected this e calls ->
  AnonymousCognitoCredentialsProvider this w = (Rejected e, after_calls calls w).
Proof.
  unfold exchange_rejected, first_request, third_request, exchange_calls.
  unfold AnonymousCognitoCredentialsProvider, then_, getId, getOpenIdToken,
    assumeRoleWithWebIdentity, after_calls, with_call.
  intros [(H1 & ->) | [(id & H1 & H2 & ->) | (id & token & H1 & H2 & H3 & ->)]].
  - now rewrite H1.
  - rewrite H1, H2; simpl. now rewrite <- !app_assoc.
  - rewrite H1, H2, H3; simpl. now rewrite <- !app_assoc.
Qed.

(** X3. On a cache miss the chain stops at the first step that is
    rejected: it is rejected with the reason of that step, unchanged; the
    calls made are those up to the rejected one and none after it; and
    storage and clock are what they were. *)
Theorem chain_stops_at_the_first_rejected_step (this : Authentication) (w : World)
    (e : thrown) (calls : list RemoteCall) :
  CacheMiss (fst (AnonymousCookieCredentialsProvider w)) ->
  exchange_rejected this e calls ->
  ChainAnonymousCredentialsProvider this w = (Rejected e, after_calls calls w).
Proof.
  intros Hmiss Hstop.
  rewrite (chain_on_miss this w Hmiss). unfold then_.
  now rewrite (cognito_stops this w e calls Hstop).
Qed.

Lemma setItem_items (k text : string) (st st' : Storage) :
  setItem k text st = Normal st' ->
  items st' = <[k := text]> (items st)
  /\ accessible st' = true
  /\ quota st' = quota st.
Proof.
  unfold setItem.
  destruct (accessible st); simpl; [|discriminate].
  destruct (_ <? _)%N; [discriminate|].
  intros [= <-]; simpl. easy.
Qed.

Lemma cognito_writes (this : Authentication) (w : World) id token credentials
    (text : string) (st : Storage) :
  exchange_succeeds this id token credentials ->
  JSON_stringify credentials = Some text ->
  setItem CRED_KEY text (localStorage w) = Normal st ->
  AnonymousCognitoCredentialsProvider this w
  = (Fulfilled credentials,
     with_storage st (after_calls (exchange_calls this id token) w)).
Proof.
  intros Hok Htext Hset.
  rewrite (cognito_fulfilled this w id token credentials Hok).
  unfold store_credentials. rewrite Htext.
  change (localStorage (after_exchange this id token w)) with (localStorage w).
  rewrite Hset. unfold with_storage, after_calls; simpl.
  rewrite <- !app_assoc. reflexivity.
Qed.

Lemma chain_stores_the_fresh_credentials_aux (this : Authentication) (w : World)
    id token credentials (text : string) (st : Storage) :
  CacheMiss (fst (AnonymousCookieCredentialsProvider w)) ->
  exchange_succeeds this id token credentials ->
  JSON_stringify credentials = Some text ->
  setItem CRED_KEY text (localStorage w) = Normal st ->
  ChainAnonymousCredentialsProvider this w
  = (Fulfilled (Credentials_value credentials),
     with_storage st (after_calls (exchange_calls this id token) w)).
Proof.
  intros Hmiss Hok Htext Hset.
  rewrite (chain_on_miss this w Hmiss). unfold then_.
  now rewrite (cognito_writes this w id token credentials text st Hok Htext Hset).
Qed.

(** X4. On a cache miss, when the exchange succeeds and the cache write
    succeeds, the chain leaves the serialized credentials under the storage
    key, in place of whatever was there, and every other key as it was;
    the clock is untouched and the calls made are the three of the
    exchange. *)
Theorem chain_stores_the_fresh_credentials (this : Authentication) (w : World)
    id token credentials (text : string) (st : Storage) :
  CacheMiss (fst (AnonymousCookieCredentialsProvider w)) ->
  exchange_succeeds this id token credentials ->
  JSON_stringify credentials = Some text ->
  setItem CRED_KEY text (localStorage w) = Normal st ->
  ChainAnonymousCredentialsProvider this w
  = (Fulfilled (Credentials_value credentials),
     with_storage st (after_calls (exchange_calls this id token) w))
  /\ items st !! CRED_KEY = Some text
  /\ (forall k, k <> CRED_KEY -> items st !! k = items (localStorage w) !! k).
Proof.
  intros Hmiss Hok Htext Hset.
  rewrite (chain_stores_the_fresh_credentials_aux this w id token credentials text st
             Hmiss Hok Htext Hset).
  destruct (setItem_items _ _ _ _ Hset) as (Hitems & _ & _).
  rewrite Hitems. repeat split.
  - apply lookup_insert_eq.
  - intros k Hk. now apply lookup_insert_ne.
Qed.

(** X5. A second call is served from the cache. After a call that missed,
    ran the exchange and stored its credentials, a call made at any time
    before their expiration is fulfilled with the same credentials and
    leaves the world as it found it: no remote call is made. The host is
    asked to read back the record it wrote and the ISO text of the
    expiration. *)
Theorem second_call_is_served_from_the_cache (this : Authentication) (w : World)
    id token credentials (t : Z) (text : string) (later : Z) :
  CacheMiss (fst (AnonymousCookieCredentialsProvider w)) ->
  exchange_succeeds this id token credentials ->
  expiration credentials = Some (TV t) ->
  JSON_stringify credentials = Some text ->
  JSON_parse text = Some (Credentials_JSON credentials) ->
  Date_new (VStr (Date_toISOString t)) = TV t ->
  (exists st, setItem CRED_KEY text (localStorage w) = Normal st) ->
  later < t ->
  fst (ChainAnonymousCredentialsProvider this w) = Fulfilled (Credentials_value credentials)
  /\ ChainAnonymousCredentialsProvider this
       (at_time later (snd (ChainAnonymousCredentialsProvider this w)))
     = (Fulfilled (Credentials_value credentials),
        at_time later (snd (ChainAnonymousCredentialsProvider this w))).
Proof.
  intros Hmiss Hok Hexp Htext Hparse Hdate (st & Hset) Hlater.
  pose proof (chain_stores_the_fresh_credentials_aux this w id token credentials text st
                Hmiss Hok Htext Hset) as Hrun.
  rewrite Hrun. split; [reflexivity|]. cbn [snd].
  apply chain_on_hit.
  destruct (Credentials_JSON_expiration credentials t Hexp)
    as (props & Hprops & Hlookup & Hvalue).
  rewrite (cookie_record _ props t).
  - cbn [fst at_time clock].
    destruct (Z.ltb_spec t later); [lia|].
    unfold cached_credential. now rewrite Hvalue.
  - exists text, (VStr (Date_toISOString t)).
    rewrite Hparse, Hprops. repeat split; trivial.
    apply (getItem_setItem _ _ (localStorage w)). exact Hset.
Qed.

End ChainRuns.

Section ChainWithoutStorage.
Context `{Host}.

Lemma after_exchange_after_calls (this : Authentication) id token (w : World) :
  after_exchange this id token w = after_calls (exchange_calls this id token) w.
Proof.
  unfold after_exchange, after_calls, exchange_calls, with_call; simpl.
  now rewrite <- !app_assoc.
Qed.

Lemma no_write_without_storage (credentials : Credentials) (w : World) :
  accessible (localStorage w) = false -> cache_write_fails credentials w.
Proof.
  intros Hoff. unfold cache_write_fails.
  destruct (JSON_stringify credentials) as [text|]; [right | now left].
  exists text, SecurityError. split; [reflexivity|].
  unfold setItem. now rewrite Hoff.
Qed.

(** X6. With localStorage disabled the chain still delivers: the read
    throws and counts as a miss, the three calls are made, the write throws
    and is ignored, and the chain is fulfilled with the credentials of the
    third response. *)
Theorem chain_delivers_without_storage (this : Authentication) (w : World)
    id token credentials :
  accessible (localStorage w) = false ->
  exchange_succeeds this id token credentials ->
  ChainAnonymousCredentialsProvider this w
  = (Fulfilled (Credentials_value credentials),
     after_calls (exchange_calls this id token) w).
Proof.
  intros Hoff Hok.
  assert (Hmiss : CacheMiss (fst (AnonymousCookieCredentialsProvider w))).
  { rewrite (cookie_unreadable w SecurityError); [now exists Undefined|].
    unfold read_credentials, getItem. now rewrite Hoff. }
  rewrite (chain_on_miss this w Hmiss). unfold then_.
  rewrite (cognito_fulfilled this w id token credentials Hok).
  rewrite store_credentials_failed.
  - cbn [snd]. now rewrite after_exchange_after_calls.
  - apply no_write_without_storage. exact Hoff.
Qed.

End ChainWithoutStorage.

(* ===================================================================== *)
(** * The region, for every identifier                                    *)
(* ===================================================================== *)

Lemma split_head (s : string) :
  exists r segs,
    split ":" s = r :: segs
    /\ mentions ":" r = false
    /\ ((s = r /\ segs = []) \/ exists rest, s = r ++ String ":" rest).
Proof.
  induction s as [|c s (r & segs & Hsplit & Hr & Hshape)]; simpl.
  - exists EmptyString, []. repeat split. now left.
  - destruct (Ascii.eqb_spec c ":") as [-> | Hc].
    + exists EmptyString, (split ":" s). repeat split.
      right. now exists s.
    + rewrite Hsplit. exists (String c r), segs. split; [reflexivity|].
      split.
      * simpl. rewrite Hr. now destruct (Ascii.eqb_spec c ":").
      * destruct Hshape as [[-> ->] | (rest & ->)].
        -- now left.
        -- right. now exists rest.
Qed.

(** X7. Whatever the identity-pool identifier, both clients are constructed
    with the same region, which contains no colon and is the identifier up
    to its first colon: the whole identifier when it has none, the empty
    text when it starts with one. The configuration is kept as given. *)
Theorem region_is_the_prefix_before_the_first_colon (cfg : Config) :
  let this := Authentication_constructor cfg in
  let r := region (sts_config (stsClient this)) in
  region (cognito_config (cognitoIdentityClient this)) = r
  /\ mentions ":" r = false
  /\ (identityPoolId cfg = r \/ exists rest, identityPoolId cfg = r ++ ":" ++ rest)
  /\ config this = cfg.
Proof.
  unfold Authentication_constructor; simpl.
  destruct (split_head (identityPoolId cfg)) as (r & segs & Hsplit & Hr & Hshape).
  rewrite Hsplit; simpl.
  split; [reflexivity|]. split; [exact Hr|]. split; [|reflexivity].
  destruct Hshape as [[Hid _] | (rest & Hid)]; [now left | right].
  now exists rest.
Qed.

(* ===================================================================== *)
(** * DomEventPlugin: the listeners on the page                           *)
(* ===================================================================== *)

Section PluginListeners.
Import DomEventPlugin PluginRuns.

Lemma same_listener_refl (p : string * nat) : same_listener p p = true.
Proof.
  unfold same_listener. now rewrite String.eqb_refl, Nat.eqb_refl.
Qed.

Lemma same_listener_other (ty ty' : string) (l l' : nat) :
  l' <> l -> same_listener (ty, l) (ty', l') = false.
Proof.
  intros Hne. unfold same_listener; simpl.
  destruct (Nat.eqb_spec l l'); [congruence|]. apply andb_false_r.
Qed.

Lemma existsb_other (ty : string) (l : nat) (regs : list (string * nat)) :
  (forall ty' l', (ty', l') ∈ regs -> l' <> l) ->
  List.existsb (same_listener (ty, l)) regs = false.
Proof.
  induction regs as [|[ty' l'] regs IH]; intros Hregs; simpl; [reflexivity|].
  rewrite same_listener_other by (apply (Hregs ty'); left).
  apply IH. intros ty'' l'' Hin. apply (Hregs ty''). now right.
Qed.

Lemma filter_other (ty : string) (l : nat) (regs : list (string * nat)) :
  (forall ty' l', (ty', l') ∈ regs -> l' <> l) ->
  List.filter (fun r => negb (same_listener (ty, l) r)) regs = regs.
Proof.
  induction regs as [|[ty' l'] regs IH]; intros Hregs; simpl; [reflexivity|].
  rewrite same_listener_other by (apply (Hregs ty'); left). simpl.
  f_equal. apply IH. intros ty'' l'' Hin. apply (Hregs ty''). now right.
Qed.

Lemma registered_add (el el' : nat) (ty : string) (l : nat) (pg : Page) :
  registered el' (addEventListener el ty l pg)
  = if decide (el' = el)
    then (if List.existsb (same_listener (ty, l)) (registered el pg)
          then registered el pg
          else registered el pg ++ [(ty, l)])%list
    else registered el' pg.
Proof.
  unfold addEventListener. fold (registered el pg).
  destruct (List.existsb _ _).
  - case_decide; congruence.
  - unfold registered at 1; simpl. case_decide as Hel.
    + subst. now rewrite lookup_insert_eq.
    + rewrite lookup_insert_ne by congruence. reflexivity.
Qed.

Lemma registered_remove (el el' : nat) (ty : string) (l : nat) (pg : Page) :
  registered el' (removeEventListener el ty l pg)
  = if decide (el' = el)
    then List.filter (fun r => negb (same_listener (ty, l) r)) (registered el pg)
    else registered el' pg.
Proof.
  unfold removeEventListener, registered.
  destruct (listeners pg !! el) as [regs|] eqn:Hel; simpl.
  - case_decide as Heq.
    + subst. now rewrite lookup_insert_eq.
    + rewrite lookup_insert_ne by congruence. reflexivity.
  - case_decide as Heq; [|reflexivity]. subst. now rewrite Hel.
Qed.

Lemma resolve_target_ext (d : TargetDomEvent) (pg pg' : Page) :
  elementsById pg' = elementsById pg -> resolve_target d pg' = resolve_target d pg.
Proof.
  intros Hby. unfold resolve_target, getElementById. now rewrite Hby.
Qed.



(** What one [addEventHandler] does. *)
Lemma addEventHandler_run (d : TargetDomEvent) (this : DomEventPlugin) (pg : Page) :
  let made :=
    {| elementsById := elementsById pg;
       listeners := listeners pg;
       nextFunction := S (nextFunction pg) |} in
  addEventHandler d (this, pg)
  = (with_map (<[self d := nextFunction pg]> (eventListenerMap this)) this,
     match resolve_target d pg with
     | Some el => addEventListener el (event d) (nextFunction pg) made
     | None => made
     end).
Proof.
  unfold addEventHandler, getEventListener, resolve_target, getElementById; simpl.
  destruct (truthy (elementId d)) as [id|]; simpl.
  - now destruct (elementsById pg !! id).
  - now destruct (element d).
Qed.

(** What one [removeEventHandler] does. *)
Lemma removeEventHandler_run (d : TargetDomEvent) (this : DomEventPlugin) (pg : Page) :
  removeEventHandler d (this, pg)
  = (with_map (delete (self d) (eventListenerMap this)) this,
     match eventListenerMap this !! self d, resolve_target d pg with
     | Some l, Some el => removeEventListener el (event d) l pg
     | _, _ => pg
     end).
Proof.
  unfold removeEventHandler, resolve_target, getElementById; simpl.
  destruct (truthy (elementId d)) as [id|]; simpl;
    destruct (eventListenerMap this !! self d) as [l|]; simpl; try reflexivity.
  all: now destruct (element d).
Qed.

Lemma addListeners_cons (d : TargetDomEvent) (rest : list TargetDomEvent)
    (st : DomEventPlugin * Page) :
  addListeners (d :: rest) st = addListeners rest (addEventHandler d st).
Proof. reflexivity. Qed.

Lemma removeListeners_cons (d : TargetDomEvent) (rest : list TargetDomEvent)
    (st : DomEventPlugin * Page) :
  removeListeners (d :: rest) st = removeListeners rest (removeEventHandler d st).
Proof. reflexivity. Qed.



(** What the two do whatever the page and the configuration: they touch
    the map and the listeners, nothing else. *)
Lemma addListeners_frame (config : list TargetDomEvent) :
  forall (this : DomEventPlugin) (pg : Page),
    exists m' pg',
      addListeners config (this, pg) = (with_map m' this, pg')
      /\ elementsById pg' = elementsById pg.
Proof.
  induction config as [|d rest IH]; intros this pg.
  - exists (eventListenerMap this), pg. split; [now destruct this | reflexivity].
  - rewrite addListeners_cons, addEventHandler_run.
    match goal with |- context [addListeners rest (?t, ?p)] =>
      destruct (IH t p) as (m' & pg' & Hrun & Hby) end.
    exists m', pg'. rewrite Hrun. split; [reflexivity|].
    rewrite Hby. destruct (resolve_target d pg); [|reflexivity].
    unfold addEventListener. now destruct (List.existsb _ _).
Qed.

Lemma removeListeners_frame (config : list TargetDomEvent) :
  forall (this : DomEventPlugin) (pg : Page),
    exists m' pg',
      removeListeners config (this, pg) = (with_map m' this, pg')
      /\ elementsById pg' = elementsById pg
      /\ nextFunction pg' = nextFunction pg.
Proof.
  induction config as [|d rest IH]; intros this pg.
  - exists (eventListenerMap this), pg.
    split; [now destruct this | split; reflexivity].
  - rewrite removeListeners_cons, removeEventHandler_run.
    match goal with |- context [removeListeners rest (?t, ?p)] =>
      destruct (IH t p) as (m' & pg' & Hrun & Hby & Hnext) end.
    exists m', pg'. rewrite Hrun. split; [reflexivity|].
    rewrite Hby, Hnext.
    destruct (eventListenerMap this !! self d); [|split; reflexivity].
    destruct (resolve_target d pg); [|split; reflexivity].
    unfold removeEventListener. now destruct (listeners pg !! _).
Qed.








(** What one call leaves of the fields it is not about. *)
Lemma step_fields (c : call) (st : DomEventPlugin * Page) :
  recordEvent (fst (step c st))
  = match c with Load r => Some r | _ => recordEvent (fst st) end
  /\ configuration (fst (step c st))
     = match c with Configure config => config | _ => configuration (fst st) end
  /\ enabled (fst (step c st))
     = match c with Enable => true | Disable => false | _ => enabled (fst st) end
  /\ pluginId (fst (step c st)) = pluginId (fst st)
  /\ elementsById (snd (step c st)) = elementsById (snd st).
Proof.
  destruct st as [this pg].
  destruct c as [r | | | config]; cbn [step fst snd].
  - easy.
  - unfold enable; cbn [fst].
    destruct (enabled this) eqn:Hon; cbn [fst snd]; [now rewrite Hon|].
    destruct (addListeners_frame (configuration this) this pg)
      as (m' & pg' & -> & Hby). easy.
  - unfold disable; cbn [fst].
    destruct (enabled this) eqn:Hon; cbn [negb fst snd]; [|now rewrite Hon].
    destruct (removeListeners_frame (configuration this) this pg)
      as (m' & pg' & -> & Hby & _). easy.
  - unfold configure; cbn [fst].
    destruct (enabled this) eqn:Hon; cbn [fst snd enabled]; [|now rewrite Hon].
    destruct (removeListeners_frame (configuration this) this pg)
      as (m1 & pg1 & -> & Hby1 & _).
    destruct (addListeners_frame config (with_map m1 this) pg1)
      as (m2 & pg2 & -> & Hby2).
    cbn. rewrite Hon. split; [reflexivity|]. split; [reflexivity|].
    split; [reflexivity|]. split; [reflexivity|]. congruence.
Qed.

Lemma run_fields (calls : list call) :
  forall st : DomEventPlugin * Page,
    recordEvent (fst (run calls st)) = last_loaded calls (recordEvent (fst st))
    /\ configuration (fst (run calls st))
       = last_configured calls (configuration (fst st))
    /\ enabled (fst (run calls st)) = last_switch calls (enabled (fst st))
    /\ pluginId (fst (run calls st)) = pluginId (fst st)
    /\ elementsById (snd (run calls st)) = elementsById (snd st).
Proof.
  induction calls as [|c calls IH]; intros st; [easy|].
  change (run (c :: calls) st) with (run calls (step c st)).
  destruct (IH (step c st)) as (Hr & Hc & He & Hp & Hby).
  destruct (step_fields c st) as (Hr1 & Hc1 & He1 & Hp1 & Hby1).
  rewrite Hr, Hc, He, Hp, Hby, Hr1, Hc1, He1, Hp1, Hby1.
  destruct c; easy.
Qed.

(** X10. The calls of one kind do not disturb what the others set. After
    any calls on any plugin, the context is the one last loaded, the
    configuration the one last configured, and the plugin is enabled or
    not as the last enable or disable left it (each as it was when there
    was no such call); the plugin id is what it was, and so is the element
    each id finds. *)
Theorem plugin_fields_follow_the_last_call_of_their_kind
    (calls : list call) (st : DomEventPlugin * Page) :
  recordEvent (fst (run calls st)) = last_loaded calls (recordEvent (fst st))
  /\ configuration (fst (run calls st)) = last_configured calls (configuration (fst st))
  /\ enabled (fst (run calls st)) = last_switch calls (enabled (fst st))
  /\ getPluginId (fst (run calls st)) = getPluginId (fst st)
  /\ elementsById (snd (run calls st)) = elementsById (snd st).
Proof. apply run_fields. Qed.

(** X11. A configuration that names the same object twice leaks a listener.
    Enabling a disabled plugin with such a configuration registers two
    listeners for the object but keeps only the second in the map;
    disabling it then removes the second and leaves the first on the
    element, though the plugin is disabled and its map has no entry for
    the object. *)
Theorem repeated_entry_leaks_a_listener (d : TargetDomEvent) (this : DomEventPlugin)
    (pg : Page) (el : nat) :
  fresh pg ->
  enabled this = false ->
  configuration this = [d; d] ->
  resolve_target d pg = Some el ->
  registered el (snd (enable (this, pg)))
  = (registered el pg ++ [(event d, nextFunction pg); (event d, S (nextFunction pg))])%list
  /\ registered el (snd (disable (enable (this, pg))))
     = (registered el pg ++ [(event d, nextFunction pg)])%list
  /\ enabled (fst (disable (enable (this, pg)))) = false
  /\ eventListenerMap (fst (disable (enable (this, pg)))) !! self d = None.
Proof.
  intros Hfresh Hoff Hconfig Htarget.
  set (n := nextFunction pg).
  set (made1 := {| elementsById := elementsById pg; listeners := listeners pg;
                   nextFunction := S n |}).
  set (pg1 := addEventListener el (event d) n made1).
  set (made2 := {| elementsById := elementsById pg1; listeners := listeners pg1;
                   nextFunction := S (nextFunction pg1) |}).
  set (pg2 := addEventListener el (event d) (nextFunction pg1) made2).
  set (m2 := <[self d := nextFunction pg1]> (<[self d := n]> (eventListenerMap this))).
  assert (Hby1 : elementsById pg1 = elementsById pg).
  { unfold pg1, addEventListener. now destruct (List.existsb _ _). }
  assert (Hnext1 : nextFunction pg1 = S n).
  { unfold pg1, addEventListener. now destruct (List.existsb _ _). }
  assert (Hreg1 : registered el pg1 = (registered el pg ++ [(event d, n)])%list).
  { unfold pg1. rewrite registered_add, decide_True by reflexivity.
    change (registered el made1) with (registered el pg).
    rewrite existsb_other; [reflexivity|].
    intros ty' l' Hin. apply Hfresh in Hin. fold n in Hin. lia. }
  assert (Hreg2 : registered el pg2
                  = (registered el pg ++ [(event d, n); (event d, S n)])%list).
  { unfold pg2. rewrite registered_add, decide_True by reflexivity.
    change (registered el made2) with (registered el pg1).
    rewrite Hreg1, Hnext1, existsb_other.
    - now rewrite <- app_assoc.
    - intros ty' l'. rewrite elem_of_app. intros [Hin | Hin].
      + apply Hfresh in Hin. fold n in Hin. lia.
      + apply list_elem_of_singleton in Hin. injection Hin as _ ->. lia. }
  assert (Henable : enable (this, pg)
                    = (with_enabled true (with_map m2 this), pg2)).
  { unfold enable; cbn [fst]. rewrite Hoff, Hconfig.
    rewrite !addListeners_cons, addEventHandler_run, Htarget.
    fold n made1 pg1.
    rewrite addEventHandler_run, (resolve_target_ext d pg pg1 Hby1), Htarget.
    reflexivity. }
  assert (Hm2 : m2 !! self d = Some (S n)).
  { unfold m2. now rewrite lookup_insert_eq, Hnext1. }
  assert (Hby2 : elementsById pg2 = elementsById pg).
  { unfold pg2, addEventListener. now destruct (List.existsb _ _). }
  assert (Hdisable :
            disable (with_enabled true (with_map m2 this), pg2)
            = (with_enabled false
                 (with_map (delete (self d) (delete (self d) m2)) this),
               removeEventListener el (event d) (S n) pg2)).
  { unfold disable; cbn [fst enabled with_enabled negb configuration with_map].
    rewrite Hconfig, !removeListeners_cons, removeEventHandler_run.
    cbn [eventListenerMap with_enabled with_map].
    rewrite Hm2, (resolve_target_ext d pg pg2 Hby2), Htarget.
    rewrite removeEventHandler_run.
    cbn [eventListenerMap with_enabled with_map].
    rewrite lookup_delete_eq. reflexivity. }
  rewrite Henable, Hdisable. cbn [fst snd].
  split; [exact Hreg2|].
  split; [|split; [reflexivity | apply lookup_delete_eq]].
  rewrite registered_remove, decide_True by reflexivity.
  rewrite Hreg2.
  change [(event d, n); (event d, S n)] with ([(event d, n)] ++ [(event d, S n)])%list.
  rewrite app_assoc, List.filter_app.
  rewrite filter_other.
  - simpl. rewrite same_listener_refl. simpl. now rewrite app_nil_r.
  - intros ty' l'. rewrite elem_of_app. intros [Hin | Hin].
    + apply Hfresh in Hin. fold n in Hin. lia.
    + apply list_elem_of_singleton in Hin. injection Hin as _ ->. lia.
Qed.

(** X12. A listener records to the context last loaded, whatever else was
    called. Called with an event after any calls on a new plugin, the
    function [getEventListener] made passes to the [record] of the last
    [load] the event type of the plugin and data of version 1.0.0 with the
    type of the event and the element id [getElementId] gives; when [load]
    was never called it records nothing. Whether the plugin is enabled
    plays no part. *)
Theorem listener_records_to_the_last_context (DOM_EVENT_TYPE : string)
    (calls : list call) (pg0 : Page) (ev : Event) :
  eventListener DOM_EVENT_TYPE (fst (run calls (constructor, pg0))) ev
  = (fun record =>
       (record, DOM_EVENT_TYPE,
        {| DomEvent.version := "1.0.0";
           DomEvent.event := type ev;
           DomEvent.elementId := getElementId ev |}))
    <$> last_loaded calls None.
Proof.
  unfold eventListener.
  destruct (run_fields calls (constructor, pg0)) as (-> & _).
  cbn [fst recordEvent constructor].
  now destruct (last_loaded calls None).
Qed.

End PluginListeners.

(* ===================================================================== *)
(** * The further properties at work                                      *)
(* ===================================================================== *)

Section FurtherRuns.
Import Examples DomEventPlugin PluginRuns.

Lemma page_fresh : fresh page.
Proof.
  intros el ty l Hin. unfold registered in Hin. simpl in Hin.
  rewrite lookup_empty in Hin. inversion Hin.
Qed.


(** X1 on the record that expires in 2099, read in 2024. *)
Lemma cookie_credential_is_the_record_with_a_date_witness :
  exists item v serialized,
    getItem (@CRED_KEY online) (localStorage (stored valid_record)) = Normal item
    /\ @JSON_parse online (ToString_item item) = Some v
    /\ is_primitive v = false
    /\ Get v "expiration" = Normal serialized
    /\ Get (cached_credential (record_props [("expiration", VStr "2099-01-01T00:00:00Z")])
              year2099) "expiration"
       = Normal (VDate (@Date_new online serialized) [])
    /\ (forall t, @Date_new online serialized = TV t -> clock (stored valid_record) <= t)
    /\ (forall k, k <> "expiration" ->
                  Get (cached_credential
                         (record_props [("expiration", VStr "2099-01-01T00:00:00Z")])
                         year2099) k
                  = Get v k).
Proof.
  apply (@cookie_credential_is_the_record_with_a_date online (stored valid_record)).
  vm_compute; reflexivity.
Defined.

(** X2 on a disabled storage. *)
Lemma cookie_misses_without_storage_or_object_witness :
  @AnonymousCookieCredentialsProvider online world_without_storage
  = (Rejected (if accessible (localStorage world_without_storage)
               then TypeError else Undefined),
     world_without_storage).
Proof.
  apply (@cookie_misses_without_storage_or_object online world_without_storage).
  left. reflexivity.
Defined.

(** X3 with the third step failing. *)
Lemma chain_stops_at_the_first_rejected_step_witness :
  @ChainAnonymousCredentialsProvider sts_down authentication empty_world
  = (Rejected (ServiceError "AccessDenied"),
     after_calls (exchange_calls authentication identity token) empty_world).
Proof.
  apply (@chain_stops_at_the_first_rejected_step sts_down authentication empty_world).
  - exists TypeError. vm_compute; reflexivity.
  - right; right. exists identity, token. repeat split; reflexivity.
Defined.

(** X4 on an expired record, which the fresh credentials replace. *)
Lemma chain_stores_the_fresh_credentials_witness :
  @ChainAnonymousCredentialsProvider online authentication (stored expired_record)
  = (Fulfilled (Credentials_value fresh_credentials),
     with_storage (storage {["cwr_c" := fresh_text]})
       (after_calls (exchange_calls authentication identity token)
          (stored expired_record)))
  /\ items (storage {["cwr_c" := fresh_text]}) !! (@CRED_KEY online) = Some fresh_text
  /\ (forall k, k <> @CRED_KEY online ->
                items (storage {["cwr_c" := fresh_text]}) !! k
                = items (localStorage (stored expired_record)) !! k).
Proof.
  apply (@chain_stores_the_fresh_credentials online authentication
           (stored expired_record) identity token fresh_credentials fresh_text).
  - exists Undefined. vm_compute; reflexivity.
  - repeat split; reflexivity.
  - vm_compute; reflexivity.
  - vm_compute; reflexivity.
Defined.

(** X5 on an empty storage, the second call made in 2024. *)
Lemma second_call_is_served_from_the_cache_witness :
  fst (@ChainAnonymousCredentialsProvider online authentication empty_world)
  = Fulfilled (Credentials_value fresh_credentials)
  /\ @ChainAnonymousCredentialsProvider online authentication
       (at_time now
          (snd (@ChainAnonymousCredentialsProvider online authentication empty_world)))
     = (Fulfilled (Credentials_value fresh_credentials),
        at_time now
          (snd (@ChainAnonymousCredentialsProvider online authentication empty_world))).
Proof.
  apply (@second_call_is_served_from_the_cache online authentication empty_world
           identity token fresh_credentials year2099 fresh_text now).
  - exists TypeError. vm_compute; reflexivity.
  - repeat split; reflexivity.
  - reflexivity.
  - vm_compute; reflexivity.
  - vm_compute; reflexivity.
  - vm_compute; reflexivity.
  - exists (storage {["cwr_c" := fresh_text]}). vm_compute; reflexivity.
  - vm_compute; reflexivity.
Defined.

(** X6 on a disabled storage. *)
Lemma chain_delivers_without_storage_witness :
  @ChainAnonymousCredentialsProvider online authentication world_without_storage
  = (Fulfilled (Credentials_value fresh_credentials),
     after_calls (exchange_calls authentication identity token) world_without_storage).
Proof.
  apply (@chain_delivers_without_storage online authentication world_without_storage
           identity token fresh_credentials).
  - reflexivity.
  - repeat split; reflexivity.
Defined.



(** X11 on the button named twice. *)
Lemma repeated_entry_leaks_a_listener_witness :
  registered 7 (snd (enable (button_twice, page)))
  = (registered 7 page ++ [(event button, nextFunction page);
                           (event button, S (nextFunction page))])%list
  /\ registered 7 (snd (disable (enable (button_twice, page))))
     = (registered 7 page ++ [(event button, nextFunction page)])%list
  /\ enabled (fst (disable (enable (button_twice, page)))) = false
  /\ eventListenerMap (fst (disable (enable (button_twice, page)))) !! self button = None.
Proof.
  apply (repeated_entry_leaks_a_listener button button_twice page 7).
  - exact page_fresh.
  - reflexivity.
  - reflexivity.
  - vm_compute; reflexivity.
Defined.

End FurtherRuns.

(* ===================================================================== *)
(** * The calls of the chain, whatever the services do                    *)
(* ===================================================================== *)

Section ChainCalls.
Context `{Host}.

Lemma cognito_prefix (this : Authentication) (w : World) :
  exists calls,
    remoteCalls (snd (AnonymousCognitoCredentialsProvider this w))
    = (remoteCalls w ++ calls)%list
    /\ exchange_prefix this calls
    /\ forall w',
         fst (AnonymousCognitoCredentialsProvider this w')
         = fst (AnonymousCognitoCredentialsProvider this w)
         /\ remoteCalls (snd (AnonymousCognitoCredentialsProvider this w'))
            = (remoteCalls w' ++ calls)%list.
Proof.
  unfold AnonymousCognitoCredentialsProvider, then_, getId, getOpenIdToken,
    assumeRoleWithWebIdentity, callback, store_credentials.
  destruct (cognito_getId _ _) as [id| |] eqn:H1; simpl.
  2,3: eexists; split; [reflexivity|]; split; [now left | easy].
  destruct (cognito_getOpenIdToken _ _) as [token| |] eqn:H2; simpl.
  2,3: exists [CallGetId (cognitoIdentityClient this) (first_request this);
               CallGetOpenIdToken (cognitoIdentityClient this) id];
    split; [now rewrite <- app_assoc|]; split;
    [right; left; exists id; split; [exact H1 | reflexivity]
    | intros w'; now rewrite <- app_assoc].
  assert (Hprefix : exchange_prefix this (exchange_calls this id token)).
  { right; right. exists id, token. split; [exact H1|]. split; [exact H2|reflexivity]. }
  exists (exchange_calls this id token).
  destruct (sts_assumeRoleWithWebIdentity _ _) as [credentials| |]; simpl.
  2,3: split; [now rewrite <- !app_assoc|]; split;
    [exact Hprefix | intros w'; now rewrite <- !app_assoc].
  split; [|split; [exact Hprefix|]].
  - destruct (JSON_stringify credentials) as [text|];
      [destruct (setItem CRED_KEY text (localStorage w))|];
      simpl; now rewrite <- !app_assoc.
  - intros w'. split; [reflexivity|].
    destruct (JSON_stringify credentials) as [text|];
      [destruct (setItem CRED_KEY text (localStorage w'))|];
      simpl; now rewrite <- !app_assoc.
Qed.

(** X13. The exchange does not look at the world. The Cognito provider ends
    the same way and makes the same calls whatever the storage holds (a
    valid record included), whatever the clock reads and whether or not
    its cache write succeeds. *)
Theorem exchange_ignores_storage_and_clock (this : Authentication) (w w' : World) :
  fst (AnonymousCognitoCredentialsProvider this w')
  = fst (AnonymousCognitoCredentialsProvider this w)
  /\ calls_since w' (snd (AnonymousCognitoCredentialsProvider this w'))
     = calls_since w (snd (AnonymousCognitoCredentialsProvider this w)).
Proof.
  destruct (cognito_prefix this w) as (calls & Hcalls & _ & Hsame).
  destruct (Hsame w') as [Hfst Hcalls'].
  split; [exact Hfst|].
  now rewrite (calls_since_app _ _ calls Hcalls), (calls_since_app _ _ calls Hcalls').
Qed.

(** X14. Whatever the services answer, and whether they answer at all, one
    run of the chain makes no call when the cache hits, and on a miss makes
    the first call, then the second only with what the first answered,
    then the third only with the token the second answered: never more
    than three calls, never one out of turn. *)
Theorem chain_calls_are_a_prefix_of_the_exchange (this : Authentication) (w : World) :
  (~ CacheMiss (fst (AnonymousCookieCredentialsProvider w))
   /\ calls_since w (snd (ChainAnonymousCredentialsProvider this w)) = [])
  \/ (CacheMiss (fst (AnonymousCookieCredentialsProvider w))
      /\ exchange_prefix this
           (calls_since w (snd (ChainAnonymousCredentialsProvider this w)))).
Proof.
  destruct (fst (AnonymousCookieCredentialsProvider w)) as [c|reason|] eqn:Hcookie.
  - left. split; [intros (r & Hr); discriminate|].
    rewrite (chain_on_hit this w c Hcookie). cbn [snd].
    apply calls_since_app. now rewrite app_nil_r.
  - right.
    assert (Hmiss : CacheMiss (fst (AnonymousCookieCredentialsProvider w)))
      by (exists reason; exact Hcookie).
    rewrite <- Hcookie. split; [exact Hmiss|].
    rewrite (chain_on_miss this w Hmiss). unfold then_.
    destruct (cognito_prefix this w) as (calls & Hcalls & Hprefix & _).
    destruct (AnonymousCognitoCredentialsProvider this w) as [o w1].
    cbn [snd] in Hcalls.
    destruct o; cbn [snd]; now rewrite (calls_since_app _ _ calls Hcalls).
  - exfalso. exact (cookie_settles w Hcookie).
Qed.

End ChainCalls.
